(** * LaxCoach whiteboard (src/App.js): hit testing, selection, group drag
      and the field renderer, embedded and verified.

    The component [LacrosseBoard] keeps its data in React state variables and
    draws on a 2D canvas context.  The embedding below follows the source
    function by function:

    - JavaScript numbers are kept abstract behind the class [Number]; the
      code is written once against that interface and is read at two
      instances: the real numbers (exact arithmetic, used for the universal
      statements) and IEEE binary64 (Rocq's primitive floats, used to run the
      code on concrete inputs);
    - every division the source performs goes through [divide], which logs
      its denominator, and every call on the canvas context is logged as a
      [canvas_op]: a function that draws or divides returns a [Traced] value
      (a writer monad over [event]);
    - the React state variables are the fields of [State]; each handler is a
      function from the state it closes over to the state after its updates
      have been applied;
    - between two re-renders a handler still closes over the state of the
      last render while its updaters act on the pending state: the handlers
      [handleStartQ], [handleMoveQ] and [handleEndQ] take both, and [runQ]
      runs events and re-renders in any interleaving. *)

From Stdlib Require Import List String ZArith Bool Lia.
From Stdlib Require Import Reals Lra.
From Stdlib Require PrimFloat Uint63 SpecFloat FloatOps FloatAxioms.
Import ListNotations.

Set Implicit Arguments.

(** ** JavaScript numbers *)

(** The operations of the source on numbers.  [ltb a b] is [a < b],
    [leb a b] is [a <= b] (so [a > b] is [ltb b a] and [a >= b] is
    [leb b a]), [eqb a b] is [a === b]. *)
Class Number (T : Type) : Type := {
  ofZ : Z -> T;
  add : T -> T -> T;
  sub : T -> T -> T;
  mul : T -> T -> T;
  div : T -> T -> T;
  ltb : T -> T -> bool;
  leb : T -> T -> bool;
  eqb : T -> T -> bool;
  Math_sqrt : T -> T;
  Math_pow : T -> nat -> T;
  Math_max : T -> T -> T;
  Math_min : T -> T -> T;
  Math_abs : T -> T;
  Math_PI : T
}.

Declare Scope js_scope.
Delimit Scope js_scope with js.
Notation "# z" := (ofZ z%Z) (at level 1, format "# z") : js_scope.
Infix "+" := add : js_scope.
Infix "-" := sub : js_scope.
Infix "*" := mul : js_scope.
Infix "<?" := ltb : js_scope.
Infix "<=?" := leb : js_scope.
Infix "=?" := eqb : js_scope.
Notation "a >? b" := (ltb b a) (at level 70) : js_scope.
Notation "a >=? b" := (leb b a) (at level 70) : js_scope.
Notation "a !== b" := (negb (eqb a b)) (at level 70) : js_scope.

(** *** Exact arithmetic: the real numbers *)

Definition Rltb (a b : R) : bool := if Rlt_dec a b then true else false.
Definition Rleb (a b : R) : bool := if Rle_dec a b then true else false.
Definition Reqb (a b : R) : bool := if Req_dec_T a b then true else false.

#[export] Instance RNumber : Number R := {|
  ofZ := IZR;
  add := Rplus;
  sub := Rminus;
  mul := Rmult;
  div := Rdiv;
  ltb := Rltb;
  leb := Rleb;
  eqb := Reqb;
  Math_sqrt := sqrt;
  Math_pow := pow;
  Math_max := Rmax;
  Math_min := Rmin;
  Math_abs := Rabs;
  Math_PI := PI
|}.

(** *** IEEE 754 binary64 *)

Module F64.

Definition ofZ (z : Z) : PrimFloat.float :=
  match z with
  | Z0 => PrimFloat.zero
  | Zpos _ => PrimFloat.of_uint63 (Uint63.of_Z z)
  | Zneg p => PrimFloat.opp (PrimFloat.of_uint63 (Uint63.of_Z (Zpos p)))
  end.

(** [Math.pow(x, n)] for a small non-negative integer [n], as repeated
    multiplication ([Math.pow(x, 2)] is [x * x]). *)
Fixpoint pow (x : PrimFloat.float) (n : nat) : PrimFloat.float :=
  match n with
  | O => PrimFloat.one
  | S O => x
  | S m => PrimFloat.mul x (pow x m)
  end.

(** [Math.max]: NaN if either argument is NaN, and [+0] is larger than
    [-0]. *)
Definition max (a b : PrimFloat.float) : PrimFloat.float :=
  if PrimFloat.is_nan a || PrimFloat.is_nan b then PrimFloat.nan
  else if PrimFloat.ltb a b then b
  else if PrimFloat.ltb b a then a
  else if PrimFloat.get_sign a then b else a.

(** [Math.min]: NaN if either argument is NaN, and [-0] is smaller than
    [+0]. *)
Definition min (a b : PrimFloat.float) : PrimFloat.float :=
  if PrimFloat.is_nan a || PrimFloat.is_nan b then PrimFloat.nan
  else if PrimFloat.ltb a b then a
  else if PrimFloat.ltb b a then b
  else if PrimFloat.get_sign a then a else b.

Import PrimFloat.

(** The double nearest to pi, the value of [Math.PI]. *)
Definition PI : PrimFloat.float := 0x1.921fb54442d18p+1%float.

End F64.

#[export] Instance FloatNumber : Number PrimFloat.float := {|
  ofZ := F64.ofZ;
  add := PrimFloat.add;
  sub := PrimFloat.sub;
  mul := PrimFloat.mul;
  div := PrimFloat.div;
  ltb := PrimFloat.ltb;
  leb := PrimFloat.leb;
  eqb := PrimFloat.eqb;
  Math_sqrt := PrimFloat.sqrt;
  Math_pow := F64.pow;
  Math_max := F64.max;
  Math_min := F64.min;
  Math_abs := PrimFloat.abs;
  Math_PI := F64.PI
|}.

(** ** Tracing divisions and canvas calls *)

Section Board.

Context {T : Type} {num : Number T}.
Local Open Scope js_scope.

(** The calls the source makes on the 2D context [ctx], with their
    arguments.  Property assignments ([ctx.fillStyle = c]) are calls too. *)
Inductive canvas_op : Type :=
| fillStyle (c : string)
| strokeStyle (c : string)
| lineWidth (w : T)
| lineCap (s : string)
| lineJoin (s : string)
| setLineDash (segments : list T)
| clearRect (x y w h : T)
| fillRect (x y w h : T)
| strokeRect (x y w h : T)
| beginPath
| moveTo (x y : T)
| lineTo (x y : T)
| arc (x y radius startAngle endAngle : T)
| fill
| stroke
| save
| restore.

Inductive event : Type :=
| DivBy (denominator : T)
| Canvas (op : canvas_op).

(** A computation that returns an [A] and has logged the events in the list,
    oldest first. *)
Definition Traced (A : Type) : Type := (list event * A)%type.

Definition ret {A} (a : A) : Traced A := ([], a).

Definition bind {A B} (c : Traced A) (k : A -> Traced B) : Traced B :=
  let '(l1, a) := c in
  let '(l2, b) := k a in
  (l1 ++ l2, b).

Definition events {A} (c : Traced A) : list event := fst c.
Definition value {A} (c : Traced A) : A := snd c.

(** [ctx.op(...)] *)
Definition ctx (op : canvas_op) : Traced unit := ([Canvas op], tt).

(** [a / b], logging the denominator. *)
Definition divide (a b : T) : Traced T := ([DivBy b], div a b).

(** The denominators of the divisions performed, and the canvas calls made. *)
Definition denominators (l : list event) : list T :=
  flat_map (fun e => match e with DivBy d => [d] | Canvas _ => [] end) l.

Definition canvas_ops (l : list event) : list canvas_op :=
  flat_map (fun e => match e with DivBy _ => [] | Canvas op => [op] end) l.

End Board.

Arguments canvas_op T : clear implicits.
Arguments event T : clear implicits.
Arguments Traced T A : clear implicits.

Declare Scope traced_scope.
Delimit Scope traced_scope with traced.
Notation "x <- c ;; k" := (bind c (fun x => k))
  (at level 61, c at next level, right associativity) : traced_scope.
Notation "c ;; k" := (bind c (fun _ => k))
  (at level 61, right associativity) : traced_scope.
Notation "' pat <- c ;; k" := (bind c (fun x => match x with pat => k end))
  (at level 61, pat pattern, c at next level, right associativity) : traced_scope.
Infix "/" := divide : traced_scope.

(** ** Data model *)

Section Model.

Context {T : Type} {num : Number T}.
Local Open Scope js_scope.
Local Open Scope traced_scope.

(** [{x, y}] *)
Record Point : Type := { px : T; py : T }.

(** The objects of the [elements] array, by their [type] field:
    ['player'], ['circle'], ['line'] and ['freehand']. *)
Inductive Element : Type :=
| Player (id : string) (x y radius : T) (color : string)
| Circle (id : string) (sx sy ex ey : T) (color : string)
| Line (id : string) (sx sy ex ey : T) (color : string)
| Freehand (id : string) (points : list Point) (color : string).

(** [el.id] *)
Definition el_id (el : Element) : string :=
  match el with
  | Player id _ _ _ _ => id
  | Circle id _ _ _ _ _ => id
  | Line id _ _ _ _ _ => id
  | Freehand id _ _ => id
  end.

(** [el.color] *)
Definition el_color (el : Element) : string :=
  match el with
  | Player _ _ _ _ c => c
  | Circle _ _ _ _ _ c => c
  | Line _ _ _ _ _ c => c
  | Freehand _ _ c => c
  end.

(** [{ x, y, w, h }] *)
Record Rect : Type := { rx : T; ry : T; rw : T; rh : T }.

(** [{ startX, startY, currentX, currentY }] *)
Record SelectionBox : Type :=
  { startX : T; startY : T; currentX : T; currentY : T }.

(** [ids.includes(id)] *)
Definition includes (ids : list string) (id : string) : bool :=
  existsb (String.eqb id) ids.

(** ** Geometry and hit testing *)

Definition distance (a b : Point) : T :=
  Math_sqrt (Math_pow (px a - px b) 2 + Math_pow (py a - py b) 2).

Definition pointToLineDistance (point start end_ : Point) : Traced T T :=
  let A := px point - px start in
  let B := py point - py start in
  let C := px end_ - px start in
  let D := py end_ - py start in
  let dot := A * C + B * D in
  let lenSq := C * C + D * D in
  let param := #(-1) in
  param <- (if lenSq !== #0 then dot / lenSq else ret param) ;;
  let '(xx, yy) :=
    if param <? #0 then (px start, py start)
    else if param >? #1 then (px end_, py end_)
    else (px start + param * C, py start + param * D) in
  let dx := px point - xx in
  let dy := py point - yy in
  ret (Math_sqrt (dx * dx + dy * dy)).

Definition isHit (element : Element) (x y : T) : bool :=
  let threshold := #10 in
  match element with
  | Player _ ex ey radius _ =>
      let dist := distance {| px := x; py := y |} {| px := ex; py := ey |} in
      dist <=? radius + #5
  | Circle _ sx sy ex ey _ =>
      let dist := distance {| px := x; py := y |} {| px := sx; py := sy |} in
      let r := Math_max (distance {| px := sx; py := sy |} {| px := ex; py := ey |}) #10 in
      dist <=? r
  | Line _ sx sy ex ey _ =>
      value (pointToLineDistance {| px := x; py := y |} {| px := sx; py := sy |}
                                 {| px := ex; py := ey |}) <? threshold
  | Freehand _ points _ =>
      existsb (fun p => distance {| px := x; py := y |} p <? threshold) points
  end.

Definition isElementInRect (element : Element) (rect : Rect) : bool :=
  let '{| rx := x; ry := y; rw := w; rh := h |} := rect in
  match element with
  | Player _ ex ey _ _ =>
      (ex >=? x) && (ex <=? x + w) && (ey >=? y) && (ey <=? y + h)
  | Circle _ sx sy ex ey _ | Line _ sx sy ex ey _ =>
      let sIn := (sx >=? x) && (sx <=? x + w) && (sy >=? y) && (sy <=? y + h) in
      let eIn := (ex >=? x) && (ex <=? x + w) && (ey >=? y) && (ey <=? y + h) in
      sIn || eIn
  | Freehand _ points _ =>
      existsb (fun p => (px p >=? x) && (px p <=? x + w)
                        && (py p >=? y) && (py p <=? y + h)) points
  end.

(** The loop [for (let i = elements.length - 1; i >= 0; i--)], entered with
    [i + 1 = n]. *)
Fixpoint scanFrom (elements : list Element) (n : nat) (x y : T) : option Element :=
  match n with
  | O => None
  | S i =>
      match nth_error elements i with
      | Some el => if isHit el x y then Some el else scanFrom elements i x y
      | None => scanFrom elements i x y
      end
  end.

Definition getElementAtPosition (elements : list Element) (x y : T) : option Element :=
  scanFrom elements (List.length elements) x y.

End Model.

Arguments Point T : clear implicits.
Arguments Element T : clear implicits.
Arguments Rect T : clear implicits.
Arguments SelectionBox T : clear implicits.

(** ** Drawing *)

Section Drawing.

Context {T : Type} {num : Number T}.
Local Open Scope js_scope.
Local Open Scope traced_scope.

Definition FIELD_COLOR : string := "#ffffff".
Definition LINE_COLOR : string := "#000000".

(** ['full' | 'half'] *)
Inductive ViewMode : Set := full | half.

(** [list.forEach(f)] *)
Fixpoint forEach {A} (l : list A) (f : A -> Traced T unit) : Traced T unit :=
  match l with
  | [] => ret tt
  | a :: l' => f a ;; forEach l' f
  end.

Definition drawFullField (x y w h scale : T) : Traced T unit :=
  (* Outer Boundary *)
  ctx (strokeRect x y w h) ;;
  (* Midfield Line *)
  ctx beginPath ;;
  w2 <- w / #2 ;; ctx (moveTo (x + w2) y) ;;
  w2 <- w / #2 ;; ctx (lineTo (x + w2) (y + h)) ;;
  ctx stroke ;;
  (* Center Circle *)
  ctx beginPath ;;
  w2 <- w / #2 ;; h2 <- h / #2 ;;
  ctx (arc (x + w2) (y + h2) (Math_max #0 (#5 * scale)) #0 (Math_PI * #2)) ;;
  ctx stroke ;;
  (* Center X *)
  let xSize := #2 * scale in
  ctx beginPath ;;
  w2 <- w / #2 ;; h2 <- h / #2 ;; ctx (moveTo (x + w2 - xSize) (y + h2 - xSize)) ;;
  w2 <- w / #2 ;; h2 <- h / #2 ;; ctx (lineTo (x + w2 + xSize) (y + h2 + xSize)) ;;
  w2 <- w / #2 ;; h2 <- h / #2 ;; ctx (moveTo (x + w2 + xSize) (y + h2 - xSize)) ;;
  w2 <- w / #2 ;; h2 <- h / #2 ;; ctx (lineTo (x + w2 - xSize) (y + h2 + xSize)) ;;
  ctx stroke ;;
  (* Restraining Lines *)
  let restrainDist := #35 * scale in
  ctx beginPath ;;
  ctx (moveTo (x + restrainDist) y) ;;
  ctx (lineTo (x + restrainDist) (y + h)) ;;
  ctx stroke ;;
  ctx beginPath ;;
  ctx (moveTo (x + w - restrainDist) y) ;;
  ctx (lineTo (x + w - restrainDist) (y + h)) ;;
  ctx stroke ;;
  (* Goal Areas / Creases *)
  let goalDist := #15 * scale in
  let creaseRadius := Math_max #0 (#3 * scale) in
  let leftGoalX := x + goalDist in
  h2 <- h / #2 ;;
  let centerY := y + h2 in
  ctx beginPath ;;
  ctx (arc leftGoalX centerY creaseRadius #0 (Math_PI * #2)) ;;
  ctx (fillStyle "#e5e7eb") ;;
  ctx fill ;;
  ctx stroke ;;
  ctx (fillStyle LINE_COLOR) ;;
  ctx (fillRect leftGoalX (centerY - #3 * scale) #2 (#6 * scale)) ;;
  let rightGoalX := x + w - goalDist in
  ctx beginPath ;;
  ctx (arc rightGoalX centerY creaseRadius #0 (Math_PI * #2)) ;;
  ctx (fillStyle "#e5e7eb") ;;
  ctx fill ;;
  ctx stroke ;;
  ctx (fillRect rightGoalX (centerY - #3 * scale) #2 (#6 * scale)) ;;
  (* Wing Lines *)
  let wingDist := #10 * scale in
  let wingLen := #10 * scale in
  ctx beginPath ;;
  w2 <- w / #2 ;; ctx (moveTo (x + w2 - wingLen) (y + wingDist)) ;;
  w2 <- w / #2 ;; ctx (lineTo (x + w2 + wingLen) (y + wingDist)) ;;
  ctx stroke ;;
  ctx beginPath ;;
  w2 <- w / #2 ;; ctx (moveTo (x + w2 - wingLen) (y + h - wingDist)) ;;
  w2 <- w / #2 ;; ctx (lineTo (x + w2 + wingLen) (y + h - wingDist)) ;;
  ctx stroke ;;
  (* Alley Lines *)
  let alleyDist := #10 * scale in
  ctx (setLineDash [#5; #5]) ;;
  ctx beginPath ;; ctx (moveTo x (y + alleyDist)) ;;
  ctx (lineTo (x + restrainDist) (y + alleyDist)) ;; ctx stroke ;;
  ctx beginPath ;; ctx (moveTo x (y + h - alleyDist)) ;;
  ctx (lineTo (x + restrainDist) (y + h - alleyDist)) ;; ctx stroke ;;
  ctx beginPath ;; ctx (moveTo (x + w) (y + alleyDist)) ;;
  ctx (lineTo (x + w - restrainDist) (y + alleyDist)) ;; ctx stroke ;;
  ctx beginPath ;; ctx (moveTo (x + w) (y + h - alleyDist)) ;;
  ctx (lineTo (x + w - restrainDist) (y + h - alleyDist)) ;; ctx stroke ;;
  ctx (setLineDash []).

Definition drawHalfField (x y w h scale : T) : Traced T unit :=
  let toCanvasX := fun yardsX : T => x + yardsX * scale in
  let toCanvasY := fun yardsY : T => y + h - yardsY * scale in
  (* Outer Boundary *)
  ctx (strokeRect x y w h) ;;
  (* Midline *)
  ctx beginPath ;;
  ctx (moveTo x (toCanvasY #55)) ;;
  ctx (lineTo (x + w) (toCanvasY #55)) ;;
  ctx stroke ;;
  (* Restraining Line *)
  ctx beginPath ;;
  ctx (moveTo x (toCanvasY #35)) ;;
  ctx (lineTo (x + w) (toCanvasY #35)) ;;
  ctx stroke ;;
  (* Goal *)
  let creaseRadius := Math_max #0 (#3 * scale) in
  let goalY := toCanvasY #15 in
  w2 <- w / #2 ;;
  let centerX := x + w2 in
  ctx beginPath ;;
  ctx (arc centerX goalY creaseRadius #0 (Math_PI * #2)) ;;
  ctx (fillStyle "#e5e7eb") ;;
  ctx fill ;;
  ctx stroke ;;
  ctx (fillStyle LINE_COLOR) ;;
  ctx (fillRect (centerX - #3 * scale) goalY (#6 * scale) #2) ;;
  (* Center Circle *)
  ctx beginPath ;;
  ctx (arc centerX (toCanvasY #55) (Math_max #0 (#5 * scale)) #0 (Math_PI * #2)) ;;
  ctx stroke ;;
  (* Center X *)
  let xSize := #2 * scale in
  let midY := toCanvasY #55 in
  ctx beginPath ;;
  ctx (moveTo (centerX - xSize) (midY - xSize)) ;;
  ctx (lineTo (centerX + xSize) (midY + xSize)) ;;
  ctx (moveTo (centerX + xSize) (midY - xSize)) ;;
  ctx (lineTo (centerX - xSize) (midY + xSize)) ;;
  ctx stroke ;;
  (* Alley Lines *)
  let alleyDist := #10 * scale in
  ctx (setLineDash [#5; #5]) ;;
  ctx beginPath ;;
  ctx (moveTo (x + alleyDist) (toCanvasY #0)) ;;
  ctx (lineTo (x + alleyDist) (toCanvasY #35)) ;;
  ctx stroke ;;
  ctx beginPath ;;
  ctx (moveTo (x + w - alleyDist) (toCanvasY #0)) ;;
  ctx (lineTo (x + w - alleyDist) (toCanvasY #35)) ;;
  ctx stroke ;;
  (* Wing Lines *)
  ctx (setLineDash []) ;;
  ctx beginPath ;;
  ctx (moveTo (x + alleyDist) (toCanvasY #45)) ;;
  ctx (lineTo (x + alleyDist) (toCanvasY #65)) ;;
  ctx stroke ;;
  ctx beginPath ;;
  ctx (moveTo (x + w - alleyDist) (toCanvasY #45)) ;;
  ctx (lineTo (x + w - alleyDist) (toCanvasY #65)) ;;
  ctx stroke.

Definition drawField (viewMode : ViewMode) (width height : T) : Traced T unit :=
  let padding := #30 in
  if (width <=? padding * #2) || (height <=? padding * #2) then
    ctx (fillStyle FIELD_COLOR) ;;
    ctx (fillRect #0 #0 width height)
  else
    (* Background *)
    ctx (fillStyle FIELD_COLOR) ;;
    ctx (fillRect #0 #0 width height) ;;
    ctx (strokeStyle LINE_COLOR) ;;
    ctx (lineWidth #2) ;;
    ctx (lineCap "round") ;;
    let drawWidth := width - padding * #2 in
    let drawHeight := height - padding * #2 in
    fieldRatio <- match viewMode with
                  | full => #110 / #60
                  | half => #60 / #65
                  end ;;
    canvasRatio <- drawWidth / drawHeight ;;
    '(x, y, w, h) <-
      (if canvasRatio >? fieldRatio then
         let h := drawHeight in
         let w := h * fieldRatio in
         let y := padding in
         x <- (width - w) / #2 ;;
         ret (x, y, w, h)
       else
         let w := drawWidth in
         h <- w / fieldRatio ;;
         let x := padding in
         y <- (height - h) / #2 ;;
         ret (x, y, w, h)) ;;
    scale <- match viewMode with
             | full => w / #110
             | half => w / #60
             end ;;
    match viewMode with
    | full => drawFullField x y w h scale
    | half => drawHalfField x y w h scale
    end.

End Drawing.

Section Rendering.

Context {T : Type} {num : Number T}.

(** [Math.atan2], [Math.cos] and [Math.sin], used for the arrowhead of a
    line only. *)
Variables (Math_atan2 : T -> T -> T) (Math_cos Math_sin : T -> T).

Local Open Scope js_scope.
Local Open Scope traced_scope.

(** The highlight every branch of [drawElement] ends with:
    [if (selectedElementIds.includes(element.id)) {...}]. *)
Definition strokeSelected : Traced T unit :=
  ctx (strokeStyle "#22c55e") ;;
  ctx (lineWidth #2) ;;
  ctx stroke.

Definition drawElement (selectedElementIds : list string) (element : Element T)
  : Traced T unit :=
  ctx (strokeStyle (el_color element)) ;;
  ctx (lineWidth #3) ;;
  ctx (lineCap "round") ;;
  ctx (lineJoin "round") ;;
  match element with
  | Player id x y radius color =>
      ctx beginPath ;;
      let safeRadius := Math_max #1 radius in
      ctx (arc x y safeRadius #0 (Math_PI * #2)) ;;
      ctx (fillStyle color) ;;
      ctx fill ;;
      ctx stroke ;;
      if includes selectedElementIds id then
        strokeSelected ;;
        ctx beginPath ;;
        ctx (arc x y (safeRadius + #4) #0 (Math_PI * #2)) ;;
        ctx (strokeStyle "#22c55e") ;;
        ctx (lineWidth #1) ;;
        ctx (setLineDash [#2; #2]) ;;
        ctx stroke ;;
        ctx (setLineDash [])
      else ret tt
  | Circle id sx sy ex ey color =>
      ctx beginPath ;;
      let radius :=
        Math_max (distance {| px := sx; py := sy |} {| px := ex; py := ey |}) #10 in
      ctx (arc sx sy radius #0 (Math_PI * #2)) ;;
      ctx (fillStyle (color ++ "20")) ;;
      ctx fill ;;
      ctx stroke ;;
      ctx beginPath ;;
      ctx (arc sx sy #2 #0 (Math_PI * #2)) ;;
      ctx (fillStyle color) ;;
      ctx fill ;;
      if includes selectedElementIds id then strokeSelected else ret tt
  | Line id sx sy ex ey color =>
      ctx beginPath ;;
      ctx (moveTo sx sy) ;;
      ctx (lineTo ex ey) ;;
      ctx stroke ;;
      let headLen := #12 in
      let dx := ex - sx in
      let dy := ey - sy in
      let angle := Math_atan2 dy dx in
      ctx beginPath ;;
      ctx (moveTo ex ey) ;;
      a1 <- Math_PI / #6 ;; a2 <- Math_PI / #6 ;;
      ctx (lineTo (ex - headLen * Math_cos (angle - a1))
                  (ey - headLen * Math_sin (angle - a2))) ;;
      ctx (moveTo ex ey) ;;
      a1 <- Math_PI / #6 ;; a2 <- Math_PI / #6 ;;
      ctx (lineTo (ex - headLen * Math_cos (angle + a1))
                  (ey - headLen * Math_sin (angle + a2))) ;;
      ctx stroke ;;
      if includes selectedElementIds id then strokeSelected else ret tt
  | Freehand id points color =>
      match points with
      | p0 :: ((_ :: _) as rest) =>
          ctx beginPath ;;
          ctx (moveTo (px p0) (py p0)) ;;
          forEach rest (fun p => ctx (lineTo (px p) (py p))) ;;
          ctx stroke ;;
          if includes selectedElementIds id then strokeSelected else ret tt
      | _ => ret tt  (* points.length < 2 *)
      end
  end.

(** The body of the render effect, for a canvas of the given size. *)
Definition render (viewMode : ViewMode) (elements : list (Element T))
    (currentElement : option (Element T)) (selectedElementIds : list string)
    (selectionBox : option (SelectionBox T)) (width height : T) : Traced T unit :=
  ctx (clearRect #0 #0 width height) ;;
  drawField viewMode width height ;;
  forEach elements (drawElement selectedElementIds) ;;
  match currentElement with
  | Some el => drawElement selectedElementIds el
  | None => ret tt
  end ;;
  match selectionBox with
  | Some box =>
      let x := Math_min (startX box) (currentX box) in
      let y := Math_min (startY box) (currentY box) in
      let w := Math_abs (currentX box - startX box) in
      let h := Math_abs (currentY box - startY box) in
      ctx save ;;
      ctx (fillStyle "rgba(59, 130, 246, 0.1)") ;;
      ctx (strokeStyle "#2563eb") ;;
      ctx (lineWidth #1) ;;
      ctx (setLineDash [#4; #4]) ;;
      ctx (fillRect x y w h) ;;
      ctx (strokeRect x y w h) ;;
      ctx restore
  | None => ret tt
  end.

End Rendering.

(** ** The controller *)

(** [tool]: ['player' | 'circle' | 'line' | 'freehand' | 'interact' | 'eraser'] *)
Inductive Tool : Set := player | circle | line | freehand | interact | eraser.

Section Controller.

Context {T : Type} {num : Number T}.
Local Open Scope js_scope.

(** The React state variables of [LacrosseBoard]. *)
Record State : Type := {
  tool : Tool;
  viewMode : ViewMode;
  color : string;
  elements : list (Element T);
  isDrawing : bool;
  currentElement : option (Element T);
  showClearConfirm : bool;
  selectedElementIds : list string;
  dragLastPos : option (Point T);
  selectionBox : option (SelectionBox T)
}.

(** The [useState] initial values. *)
Definition initialState : State := {|
  tool := player;
  viewMode := full;
  color := "#ef4444";
  elements := [];
  isDrawing := false;
  currentElement := None;
  showClearConfirm := false;
  selectedElementIds := [];
  dragLastPos := None;
  selectionBox := None
|}.

(** The state setters.  A setter called with a function ([setElements(prev
    => ...)]) applies it to the pending value of its variable. *)
Definition setTool (v : Tool) (s : State) : State :=
  {| tool := v; viewMode := viewMode s; color := color s; elements := elements s;
     isDrawing := isDrawing s; currentElement := currentElement s;
     showClearConfirm := showClearConfirm s;
     selectedElementIds := selectedElementIds s; dragLastPos := dragLastPos s;
     selectionBox := selectionBox s |}.

Definition setViewMode (v : ViewMode) (s : State) : State :=
  {| tool := tool s; viewMode := v; color := color s; elements := elements s;
     isDrawing := isDrawing s; currentElement := currentElement s;
     showClearConfirm := showClearConfirm s;
     selectedElementIds := selectedElementIds s; dragLastPos := dragLastPos s;
     selectionBox := selectionBox s |}.

Definition setColor (v : string) (s : State) : State :=
  {| tool := tool s; viewMode := viewMode s; color := v; elements := elements s;
     isDrawing := isDrawing s; currentElement := currentElement s;
     showClearConfirm := showClearConfirm s;
     selectedElementIds := selectedElementIds s; dragLastPos := dragLastPos s;
     selectionBox := selectionBox s |}.

Definition setElements (f : list (Element T) -> list (Element T)) (s : State) : State :=
  {| tool := tool s; viewMode := viewMode s; color := color s;
     elements := f (elements s);
     isDrawing := isDrawing s; currentElement := currentElement s;
     showClearConfirm := showClearConfirm s;
     selectedElementIds := selectedElementIds s; dragLastPos := dragLastPos s;
     selectionBox := selectionBox s |}.

Definition setIsDrawing (v : bool) (s : State) : State :=
  {| tool := tool s; viewMode := viewMode s; color := color s; elements := elements s;
     isDrawing := v; currentElement := currentElement s;
     showClearConfirm := showClearConfirm s;
     selectedElementIds := selectedElementIds s; dragLastPos := dragLastPos s;
     selectionBox := selectionBox s |}.

Definition setCurrentElement (v : option (Element T)) (s : State) : State :=
  {| tool := tool s; viewMode := viewMode s; color := color s; elements := elements s;
     isDrawing := isDrawing s; currentElement := v;
     showClearConfirm := showClearConfirm s;
     selectedElementIds := selectedElementIds s; dragLastPos := dragLastPos s;
     selectionBox := selectionBox s |}.

Definition setShowClearConfirm (v : bool) (s : State) : State :=
  {| tool := tool s; viewMode := viewMode s; color := color s; elements := elements s;
     isDrawing := isDrawing s; currentElement := currentElement s;
     showClearConfirm := v;
     selectedElementIds := selectedElementIds s; dragLastPos := dragLastPos s;
     selectionBox := selectionBox s |}.

Definition setSelectedElementIds (v : list string) (s : State) : State :=
  {| tool := tool s; viewMode := viewMode s; color := color s; elements := elements s;
     isDrawing := isDrawing s; currentElement := currentElement s;
     showClearConfirm := showClearConfirm s;
     selectedElementIds := v; dragLastPos := dragLastPos s;
     selectionBox := selectionBox s |}.

Definition setDragLastPos (v : option (Point T)) (s : State) : State :=
  {| tool := tool s; viewMode := viewMode s; color := color s; elements := elements s;
     isDrawing := isDrawing s; currentElement := currentElement s;
     showClearConfirm := showClearConfirm s;
     selectedElementIds := selectedElementIds s; dragLastPos := v;
     selectionBox := selectionBox s |}.

Definition setSelectionBox (v : option (SelectionBox T)) (s : State) : State :=
  {| tool := tool s; viewMode := viewMode s; color := color s; elements := elements s;
     isDrawing := isDrawing s; currentElement := currentElement s;
     showClearConfirm := showClearConfirm s;
     selectedElementIds := selectedElementIds s; dragLastPos := dragLastPos s;
     selectionBox := v |}.

(** [prev.filter(el => el.id !== hit.id)] *)
Definition removeById (hit : Element T) (prev : list (Element T)) : list (Element T) :=
  filter (fun el => negb (String.eqb (el_id el) (el_id hit))) prev.

(** [handleStart], for the pointer position [{x, y}] that [getPos] returns;
    [id] is the value [generateId()] returns when it is called. *)
Definition handleStart (s : State) (x y : T) (id : string) : State :=
  let st := setIsDrawing true s in
  match tool s with
  | interact =>
      match getElementAtPosition (elements s) x y with
      | Some hit =>
          let st :=
            if negb (includes (selectedElementIds s) (el_id hit))
            then setSelectedElementIds [el_id hit] st
            else st in
          let st := setDragLastPos (Some {| px := x; py := y |}) st in
          setSelectionBox None st
      | None =>
          let st := setSelectedElementIds [] st in
          let st := setSelectionBox
                      (Some {| startX := x; startY := y; currentX := x; currentY := y |})
                      st in
          setDragLastPos None st
      end
  | eraser =>
      match getElementAtPosition (elements s) x y with
      | Some hit => setElements (removeById hit) st
      | None => st
      end
  | player =>
      let newPlayer := Player id x y #8 (color s) in
      let st := setElements (fun prev => prev ++ [newPlayer]) st in
      setIsDrawing false st
  | freehand =>
      setCurrentElement (Some (Freehand id [{| px := x; py := y |}] (color s))) st
  | circle => setCurrentElement (Some (Circle id x y x y (color s))) st
  | line => setCurrentElement (Some (Line id x y x y (color s))) st
  end.

(** The callback [handleMove] passes to [prev.map] during a group drag. *)
Definition dragElement (selectedElementIds : list string) (dx dy : T)
    (el : Element T) : Element T :=
  if negb (includes selectedElementIds (el_id el)) then el
  else
    match el with
    | Player id x y radius color => Player id (x + dx) (y + dy) radius color
    | Line id sx sy ex ey color =>
        Line id (sx + dx) (sy + dy) (ex + dx) (ey + dy) color
    | Circle id sx sy ex ey color =>
        Circle id (sx + dx) (sy + dy) (ex + dx) (ey + dy) color
    | Freehand id points color =>
        Freehand id
          (map (fun p => {| px := px p + dx; py := py p + dy |}) points) color
    end.

(** [{ ...prev, points: [...prev.points, { x, y }] }].  Only a freehand
    object has [points]: on any other, spreading [undefined] throws a
    [TypeError] ([None]). *)
Definition appendPoint (x y : T) (prev : Element T) : option (Element T) :=
  match prev with
  | Freehand id points color =>
      Some (Freehand id (points ++ [{| px := x; py := y |}]) color)
  | _ => None
  end.

(** [{ ...prev, ex: x, ey: y }].  On an object without end point the two
    properties are added and never read. *)
Definition setEndPoint (x y : T) (prev : Element T) : Element T :=
  match prev with
  | Circle id sx sy _ _ color => Circle id sx sy x y color
  | Line id sx sy _ _ color => Line id sx sy x y color
  | _ => prev
  end.

Definition Tool_eqb (a b : Tool) : bool :=
  match a, b with
  | player, player | circle, circle | line, line | freehand, freehand
  | interact, interact | eraser, eraser => true
  | _, _ => false
  end.

(** [handleMove]; [None] when it throws. *)
Definition handleMove (s : State) (x y : T) : option State :=
  if negb (isDrawing s) && negb (Tool_eqb (tool s) interact) then Some s
  else if Tool_eqb (tool s) eraser && isDrawing s then
    (* Eraser Drag Logic *)
    match getElementAtPosition (elements s) x y with
    | Some hit => Some (setElements (removeById hit) s)
    | None => Some s
    end
  else if Tool_eqb (tool s) interact && isDrawing s then
    match selectionBox s with
    | Some prev =>
        (* 1. Box Selection Logic *)
        Some (setSelectionBox
                (Some {| startX := startX prev; startY := startY prev;
                         currentX := x; currentY := y |}) s)
    | None =>
        (* 2. Group Drag Logic *)
        match selectedElementIds s, dragLastPos s with
        | _ :: _, Some last =>
            let dx := x - px last in
            let dy := y - py last in
            let st := setElements (map (dragElement (selectedElementIds s) dx dy)) s in
            Some (setDragLastPos (Some {| px := x; py := y |}) st)
        | _, _ => Some s
        end
    end
  else
    match currentElement s with
    | None => Some s
    | Some prev =>
        if Tool_eqb (tool s) freehand then
          match appendPoint x y prev with
          | Some el => Some (setCurrentElement (Some el) s)
          | None => None
          end
        else Some (setCurrentElement (Some (setEndPoint x y prev)) s)
    end.

Definition handleEnd (s : State) : State :=
  let st := setIsDrawing false s in
  let st :=
    match tool s with
    | interact =>
        let st :=
          match selectionBox s with
          | Some box =>
              let x1 := Math_min (startX box) (currentX box) in
              let y1 := Math_min (startY box) (currentY box) in
              let w := Math_abs (currentX box - startX box) in
              let h := Math_abs (currentY box - startY box) in
              let rect := {| rx := x1; ry := y1; rw := w; rh := h |} in
              let newlySelected :=
                map el_id (filter (fun el => isElementInRect el rect) (elements s)) in
              let st := setSelectedElementIds newlySelected st in
              setSelectionBox None st
          | None => st
          end in
        setDragLastPos None st
    | _ => st
    end in
  match currentElement s with
  | Some el =>
      let st := setElements (fun prev => prev ++ [el]) st in
      setCurrentElement None st
  | None => st
  end.

Definition handleClearTrigger (s : State) : State := setShowClearConfirm true s.

Definition handleConfirmClear (s : State) : State :=
  let st := setElements (fun _ => []) s in
  let st := setCurrentElement None st in
  let st := setSelectedElementIds [] st in
  setShowClearConfirm false st.

Definition handleCancelClear (s : State) : State := setShowClearConfirm false s.

(** [prev.slice(0, -1)] *)
Definition handleUndo (s : State) : State :=
  setElements (fun prev => removelast prev) s.

(** [handleResize]: [setElements(prev => [...prev])] *)
Definition handleResize (s : State) : State := setElements (fun prev => prev) s.

(** The colours of the four [ColorButton]s. *)
Definition palette : list string :=
  ["#ef4444"; "#3b82f6"; "#000000"; "#eab308"]%string.

(** What the user can do: the events the component registers handlers for. *)
Inductive Event : Type :=
| PointerDown (x y : T) (id : string)  (* onMouseDown, onTouchStart *)
| PointerMove (x y : T)                (* onMouseMove, onTouchMove *)
| PointerUp                            (* onMouseUp, onMouseLeave, onTouchEnd *)
| SelectTool (t : Tool)
| SelectViewMode (v : ViewMode)
| SelectColor (c : string)
| Undo
| ClearTrigger
| ConfirmClear
| CancelClear
| Resize.

(** One event; [None] when the handler throws or the event cannot occur
    (the two buttons of the confirmation modal exist only while it is shown,
    and a colour button sets one of the palette colours). *)
Definition step (s : State) (e : Event) : option State :=
  match e with
  | PointerDown x y id => Some (handleStart s x y id)
  | PointerMove x y => handleMove s x y
  | PointerUp => Some (handleEnd s)
  | SelectTool t => Some (setTool t s)
  | SelectViewMode v => Some (setViewMode v s)
  | SelectColor c =>
      if existsb (String.eqb c) palette then Some (setColor c s) else None
  | Undo => Some (handleUndo s)
  | ClearTrigger => Some (handleClearTrigger s)
  | ConfirmClear =>
      if showClearConfirm s then Some (handleConfirmClear s) else None
  | CancelClear =>
      if showClearConfirm s then Some (handleCancelClear s) else None
  | Resize => Some (handleResize s)
  end.

Fixpoint run (s : State) (es : list Event) : option State :=
  match es with
  | [] => Some s
  | e :: es' =>
      match step s e with
      | Some s' => run s' es'
      | None => None
      end
  end.

(** The states the component can be in. *)
Definition reachable (s : State) : Prop :=
  exists es, run initialState es = Some s.

(** Every id in the selection references an element of the sequence. *)
Definition selectionValid (s : State) : Prop :=
  forall id, In id (selectedElementIds s) ->
             exists el, In el (elements s) /\ el_id el = id.

(** Decidable form of [selectionValid]. *)
Definition selectionValidb (s : State) : bool :=
  forallb (fun id => existsb (fun el => String.eqb (el_id el) id) (elements s))
          (selectedElementIds s).

End Controller.

Arguments State T : clear implicits.
Arguments Event T : clear implicits.

(** ** Pointer positions *)

Section Pointer.

Context {T : Type} {num : Number T}.
Local Open Scope js_scope.
Local Open Scope traced_scope.

(** What [canvas.getBoundingClientRect()] returns, as far as [getPos] reads
    it. *)
Record DOMRect : Type :=
  { rect_left : T; rect_top : T; rect_width : T; rect_height : T }.

(** [{ clientX, clientY }] *)
Record Touch : Type := { clientX : T; clientY : T }.

(** The event [getPos] receives: a mouse event has no [touches]. *)
Inductive PointerEvent : Type :=
| MouseEvent (clientX clientY : T)
| TouchEvent (touches : list Touch).

(** [getPos], for a canvas of the given backing size; [None] when reading
    [e.touches[0].clientX] throws because the touch list is empty. *)
Definition getPos (canvas_width canvas_height : T) (rect : DOMRect)
    (e : PointerEvent) : Traced T (option (Point T)) :=
  scaleX <- canvas_width / rect_width rect ;;
  scaleY <- canvas_height / rect_height rect ;;
  match e with
  | TouchEvent [] => ret None
  | TouchEvent (t :: _) =>
      ret (Some {| px := (clientX t - rect_left rect) * scaleX;
                   py := (clientY t - rect_top rect) * scaleY |})
  | MouseEvent cx cy =>
      ret (Some {| px := (cx - rect_left rect) * scaleX;
                   py := (cy - rect_top rect) * scaleY |})
  end.

End Pointer.

Arguments DOMRect T : clear implicits.
Arguments Touch T : clear implicits.
Arguments PointerEvent T : clear implicits.

(** ** Handlers between re-renders *)

(** A handler closes over the state variables of the render it was created
    in, and a setter does not change them: [setX(v)] replaces the pending
    value of [X], [setX(prev => ...)] applies its updater to the pending
    value, and the next render shows the pending values.  Below, a handler
    takes the state of the last render (its closure, [c]) and the pending
    state ([p]) and returns the pending state after its setters.  The
    handlers of the section above are these with [p] equal to [c]: the
    handler runs on a component that has re-rendered since the last event. *)

(** What applying the updaters a handler queues gives: a pending state; a
    [TypeError] raised by an updater; or an object without the fields its
    readers expect (a selection box without start corner, an element
    without [type]), which the data model does not have. *)
Inductive Outcome (A : Type) : Type :=
| Ok (a : A)
| Throws
| Untyped.

Arguments Throws {A}.
Arguments Untyped {A}.

Section Queued.

Context {T : Type} {num : Number T}.
Local Open Scope js_scope.

(** [handleStart]: the tool, the elements, the selection and the colour are
    read from the closure. *)
Definition handleStartQ (c : State T) (x y : T) (id : string) (p : State T)
  : State T :=
  let st := setIsDrawing true p in
  match tool c with
  | interact =>
      match getElementAtPosition (elements c) x y with
      | Some hit =>
          let st :=
            if negb (includes (selectedElementIds c) (el_id hit))
            then setSelectedElementIds [el_id hit] st
            else st in
          let st := setDragLastPos (Some {| px := x; py := y |}) st in
          setSelectionBox None st
      | None =>
          let st := setSelectedElementIds [] st in
          let st := setSelectionBox
                      (Some {| startX := x; startY := y; currentX := x; currentY := y |})
                      st in
          setDragLastPos None st
      end
  | eraser =>
      match getElementAtPosition (elements c) x y with
      | Some hit => setElements (removeById hit) st
      | None => st
      end
  | player =>
      let newPlayer := Player id x y #8 (color c) in
      let st := setElements (fun prev => prev ++ [newPlayer]) st in
      setIsDrawing false st
  | freehand =>
      setCurrentElement (Some (Freehand id [{| px := x; py := y |}] (color c))) st
  | circle => setCurrentElement (Some (Circle id x y x y (color c))) st
  | line => setCurrentElement (Some (Line id x y x y (color c))) st
  end.

(** [handleMove]: the guards, the hit test, the selection and the drag
    anchor are read from the closure; the three updaters
    ([setElements(prev => ...)], [setSelectionBox(prev => ...)],
    [setCurrentElement(prev => ...)]) act on the pending values. *)
Definition handleMoveQ (c : State T) (x y : T) (p : State T) : Outcome (State T) :=
  if negb (isDrawing c) && negb (Tool_eqb (tool c) interact) then Ok p
  else if Tool_eqb (tool c) eraser && isDrawing c then
    match getElementAtPosition (elements c) x y with
    | Some hit => Ok (setElements (removeById hit) p)
    | None => Ok p
    end
  else if Tool_eqb (tool c) interact && isDrawing c then
    match selectionBox c with
    | Some _ =>
        (* { ...prev, currentX: x, currentY: y } *)
        match selectionBox p with
        | Some prev =>
            Ok (setSelectionBox
                  (Some {| startX := startX prev; startY := startY prev;
                           currentX := x; currentY := y |}) p)
        | None => Untyped
        end
    | None =>
        match selectedElementIds c, dragLastPos c with
        | _ :: _, Some last =>
            let dx := x - px last in
            let dy := y - py last in
            let st := setElements (map (dragElement (selectedElementIds c) dx dy)) p in
            Ok (setDragLastPos (Some {| px := x; py := y |}) st)
        | _, _ => Ok p
        end
    end
  else
    match currentElement c with
    | None => Ok p
    | Some _ =>
        if Tool_eqb (tool c) freehand then
          (* { ...prev, points: [...prev.points, { x, y }] } *)
          match currentElement p with
          | Some prev =>
              match appendPoint x y prev with
              | Some el => Ok (setCurrentElement (Some el) p)
              | None => Throws
              end
          | None => Throws
          end
        else
          (* { ...prev, ex: x, ey: y } *)
          match currentElement p with
          | Some prev => Ok (setCurrentElement (Some (setEndPoint x y prev)) p)
          | None => Untyped
          end
    end.

(** [handleEnd]: the tool, the selection box, the elements it selects from
    and the element it commits are read from the closure. *)
Definition handleEndQ (c p : State T) : State T :=
  let st := setIsDrawing false p in
  let st :=
    match tool c with
    | interact =>
        let st :=
          match selectionBox c with
          | Some box =>
              let x1 := Math_min (startX box) (currentX box) in
              let y1 := Math_min (startY box) (currentY box) in
              let w := Math_abs (currentX box - startX box) in
              let h := Math_abs (currentY box - startY box) in
              let rect := {| rx := x1; ry := y1; rw := w; rh := h |} in
              let newlySelected :=
                map el_id (filter (fun el => isElementInRect el rect) (elements c)) in
              let st := setSelectedElementIds newlySelected st in
              setSelectionBox None st
          | None => st
          end in
        setDragLastPos None st
    | _ => st
    end in
  match currentElement c with
  | Some el =>
      let st := setElements (fun prev => prev ++ [el]) st in
      setCurrentElement None st
  | None => st
  end.

(** The component: what the last render showed and closed its handlers
    over, and the pending values. *)
Record Component : Type := { rendered : State T; pending : State T }.

(** The component right after a render of [s]. *)
Definition fresh (s : State T) : Component := {| rendered := s; pending := s |}.

(** An event reaches its handler, or React re-renders. *)
Inductive Action : Type :=
| Dispatch (e : Event T)
| Rerender.

(** The pending state after the handler of [e]; the handlers that read no
    state variable are those of the section above, applied to the pending
    state. *)
Definition dispatch (c : State T) (e : Event T) (p : State T) : option (State T) :=
  match e with
  | PointerDown x y id => Some (handleStartQ c x y id p)
  | PointerMove x y =>
      match handleMoveQ c x y p with
      | Ok p' => Some p'
      | _ => None
      end
  | PointerUp => Some (handleEndQ c p)
  | SelectTool t => Some (setTool t p)
  | SelectViewMode v => Some (setViewMode v p)
  | SelectColor col =>
      if existsb (String.eqb col) palette then Some (setColor col p) else None
  | Undo => Some (handleUndo p)
  | ClearTrigger => Some (handleClearTrigger p)
  | ConfirmClear =>
      if showClearConfirm c then Some (handleConfirmClear p) else None
  | CancelClear =>
      if showClearConfirm c then Some (handleCancelClear p) else None
  | Resize => Some (handleResize p)
  end.

Definition stepQ (k : Component) (a : Action) : option Component :=
  match a with
  | Dispatch e =>
      match dispatch (rendered k) e (pending k) with
      | Some p' => Some {| rendered := rendered k; pending := p' |}
      | None => None
      end
  | Rerender => Some (fresh (pending k))
  end.

Fixpoint runQ (k : Component) (acts : list Action) : option Component :=
  match acts with
  | [] => Some k
  | a :: acts' =>
      match stepQ k a with
      | Some k' => runQ k' acts'
      | None => None
      end
  end.

(** Pointer-moves through the given positions; after each one React
    re-renders or not, as its flag says. *)
Definition moveActions (ms : list (Point T * bool)%type) : list Action :=
  flat_map (fun m : (Point T * bool)%type =>
              Dispatch (PointerMove (px (fst m)) (py (fst m)))
                     :: if snd m then [Rerender] else []) ms.

(** The positions of the pointer-moves that a render has shown: a move
    followed, at once or after later moves, by a re-render. *)
Fixpoint shownMoves (ms : list (Point T * bool)%type) : list (Point T) :=
  match ms with
  | [] => []
  | m :: ms' =>
      if snd m || existsb snd ms' then fst m :: shownMoves ms' else []
  end.

End Queued.

Arguments Component T : clear implicits.
Arguments Action T : clear implicits.

(** * Vocabulary of the statements *)

Section Vocabulary.

Context {T : Type} {num : Number T}.
Local Open Scope js_scope.

(** [Removed id prev next]: [next] is [prev] without the entries whose id is
    [id]; every other entry is kept as it is, in the same order. *)
Inductive Removed (id : string) : list (Element T) -> list (Element T) -> Prop :=
| Removed_nil : Removed id [] []
| Removed_drop el prev next :
    el_id el = id -> Removed id prev next -> Removed id (el :: prev) next
| Removed_keep el prev next :
    el_id el <> id -> Removed id prev next -> Removed id (el :: prev) (el :: next).

(** A marker is placed at [(x, y)], selected with the interact tool, and the
    eraser tool is chosen. *)
Definition selectedMarkerTrace (x y : T) (id : string) : list (Event T) :=
  [PointerDown x y id; SelectTool interact; PointerDown x y id; PointerUp;
   SelectTool eraser].

Definition selectedMarkerState (x y : T) (id : string) : State T := {|
  tool := eraser;
  viewMode := full;
  color := "#ef4444";
  elements := [Player id x y #8 "#ef4444"];
  isDrawing := false;
  currentElement := None;
  showClearConfirm := false;
  selectedElementIds := [id];
  dragLastPos := None;
  selectionBox := None
|}.

(** The events that take elements out of the sequence and leave the
    selection as it is: undo, and pointer-down or pointer-move with the
    eraser tool. *)
Definition removesOnly (s : State T) (e : Event T) : bool :=
  match e with
  | Undo => true
  | PointerDown _ _ _ | PointerMove _ _ => Tool_eqb (tool s) eraser
  | _ => false
  end.

(** The rectangles stroked: the field has one, its outer boundary. *)
Definition strokedRects (ops : list (canvas_op T)) : list (T * T * T * T) :=
  flat_map (fun op => match op with
                      | strokeRect x y w h => [(x, y, w, h)]
                      | _ => []
                      end) ops.

End Vocabulary.

Section RealVocabulary.

Local Open Scope R_scope.

(** The squared distance from [p] to the point of parameter [t] on the line
    through [s] and [e]. *)
Definition sqDistAt (p s e : Point R) (t : R) : R :=
  (px p - (px s + t * (px e - px s))) ^ 2
  + (py p - (py s + t * (py e - py s))) ^ 2.

(** [q] lies on the segment from [s] to [e]. *)
Definition onSegment (s e q : Point R) : Prop :=
  exists t, 0 <= t <= 1
    /\ px q = px s + t * (px e - px s) /\ py q = py s + t * (py e - py s).

(** [d] is the distance from [p] to the segment from [s] to [e]: the distance
    from [p] to a point of the segment, and at most the distance from [p] to
    any point of the segment. *)
Definition isSegmentDistance (p s e : Point R) (d : R) : Prop :=
  (exists q, onSegment s e q /\ distance p q = d)
  /\ forall q, onSegment s e q -> d <= distance p q.

(** The only call of the source that can raise: [arc] raises an
    [IndexSizeError] when its radius is negative. *)
Definition raises (op : canvas_op R) : Prop :=
  match op with
  | arc _ _ radius _ _ => radius < 0
  | _ => False
  end.

End RealVocabulary.

Section GestureVocabulary.

Context {T : Type} {num : Number T}.
Local Open Scope js_scope.

(** The points [moveTo] and [lineTo] are called with. *)
Definition pathPoints (ops : list (canvas_op T)) : list (T * T) :=
  flat_map (fun op => match op with
                      | moveTo x y | lineTo x y => [(x, y)]
                      | _ => []
                      end) ops.

(** What every element the handlers create looks like: a palette colour, a
    marker of radius 8, a stroke with at least one point. *)
Definition elementOk (el : Element T) : Prop :=
  In (el_color el) palette
  /\ match el with
     | Player _ _ _ radius _ => radius = #8
     | Freehand _ points _ => points <> []
     | _ => True
     end.

Definition isPlayer (el : Element T) : bool :=
  match el with Player _ _ _ _ _ => true | _ => false end.

Definition isFreehand (el : Element T) : bool :=
  match el with Freehand _ _ _ => true | _ => false end.

Definition wellFormed (s : State T) : Prop :=
  In (color s) palette
  /\ Forall elementOk (elements s)
  /\ (forall el, currentElement s = Some el -> elementOk el /\ isPlayer el = false).

(** A drag anchor and a selection rectangle are not both present. *)
Definition anchorsExclusive (s : State T) : Prop :=
  dragLastPos s = None \/ selectionBox s = None.

End GestureVocabulary.

Section RealVocabulary2.

Local Open Scope R_scope.




(** The points an element is drawn through: the centre of a marker, the
    start and end point of a zone, every point of the segment of a line, the
    samples of a stroke. *)
Definition drawnThrough (el : Element R) (q : Point R) : Prop :=
  match el with
  | Player _ x y _ _ => q = {| px := x; py := y |}
  | Circle _ sx sy ex ey _ =>
      q = {| px := sx; py := sy |} \/ q = {| px := ex; py := ey |}
  | Line _ sx sy ex ey _ =>
      onSegment {| px := sx; py := sy |} {| px := ex; py := ey |} q
  | Freehand _ points _ => In q points
  end.

(** A path point or a circle lies within the rectangle at [(x, y)] of size
    [w] by [h]. *)
Definition opInside (x y w h : R) (op : canvas_op R) : Prop :=
  match op with
  | moveTo a b | lineTo a b => x <= a <= x + w /\ y <= b <= y + h
  | arc a b r _ _ =>
      0 <= r /\ x <= a - r /\ a + r <= x + w /\ y <= b - r /\ b + r <= y + h
  | _ => True
  end.

(** An event that is harmless: a division by something other than zero, a
    canvas call that does not raise. *)
Definition safeEvent (e : event R) : Prop :=
  match e with
  | DivBy d => d <> 0
  | Canvas op => ~ raises op
  end.

End RealVocabulary2.

(** Concrete boards. *)
Module Scenario.

(** A marker at (100, 100) under a line from (0, 0) to (50, 0); the line is
    selected. *)
Definition marker : Element PrimFloat.float :=
  Player "a" (F64.ofZ 100) (F64.ofZ 100) (F64.ofZ 8) "#ef4444".

Definition arrow : Element PrimFloat.float :=
  Line "b" (F64.ofZ 0) (F64.ofZ 0) (F64.ofZ 50) (F64.ofZ 0) "#3b82f6".

Definition board (t : Tool) : State PrimFloat.float := {|
  tool := t;
  viewMode := full;
  color := "#ef4444";
  elements := [arrow; marker];
  isDrawing := false;
  currentElement := None;
  showClearConfirm := false;
  selectedElementIds := ["b"]%string;
  dragLastPos := None;
  selectionBox := None
|}.

Local Open Scope R_scope.

(** A drag in progress over a marker, a line, a zone and a freehand stroke,
    the zone not selected, with numbers read as real numbers. *)
Definition dragging : State R := {|
  tool := interact;
  viewMode := full;
  color := "#ef4444";
  elements := [Player "a" 100 100 8 "#ef4444";
               Line "b" 0 0 50 0 "#3b82f6";
               Circle "z" 0 0 0 20 "#eab308";
               Freehand "f" [{| px := 1; py := 2 |}; {| px := 3; py := 4 |}] "#000000"];
  isDrawing := true;
  currentElement := None;
  showClearConfirm := false;
  selectedElementIds := ["a"; "b"; "f"]%string;
  dragLastPos := Some {| px := 100; py := 100 |};
  selectionBox := None
|}.

End Scenario.

(** More concrete inputs. *)
Module Cases.

(** Two pointer-moves: React re-renders after the first and not after the
    second. *)
Definition schedule : list (Point PrimFloat.float * bool) :=
  [({| px := F64.ofZ 10; py := F64.ofZ 10 |}, true);
   ({| px := F64.ofZ 20; py := F64.ofZ 15 |}, false)].

Local Open Scope R_scope.


(** A canvas of 1000 by 600 shown at half its size, at (10, 20). *)
Definition onScreen : DOMRect R :=
  {| rect_left := 10; rect_top := 20; rect_width := 500; rect_height := 300 |}.

End Cases.

(** * Properties *)

(** ** Hit testing over the sequence *)

Section TopMost.

Context {T : Type} {num : Number T}.

Lemma firstn_snoc {A} (l : list A) : forall i a,
  nth_error l i = Some a -> firstn (S i) l = firstn i l ++ [a].
Proof.
  induction l as [|b l IH]; intros [|i] a H; simpl in H; try discriminate.
  - injection H as ->. reflexivity.
  - rewrite !firstn_cons, (IH _ _ H). reflexivity.
Qed.

(** The loop is a search of the reversed prefix it has still to visit. *)
Lemma scanFrom_find (elements : list (Element T)) (x y : T) : forall n,
  n <= List.length elements ->
  scanFrom elements n x y
  = find (fun el => isHit el x y) (rev (firstn n elements)).
Proof.
  induction n as [|i IH]; intros Hn.
  - reflexivity.
  - cbn [scanFrom].
    destruct (nth_error elements i) as [el|] eqn:Hi.
    + rewrite (firstn_snoc _ _ Hi), rev_unit. cbn [find].
      destruct (isHit el x y); [reflexivity | apply IH; lia].
    + apply nth_error_None in Hi. lia.
Qed.

Lemma scanFrom_topmost (elements : list (Element T)) (x y : T) : forall n,
  match scanFrom elements n x y with
  | Some el =>
      exists i, i < n /\ nth_error elements i = Some el /\ isHit el x y = true
                /\ forall j el', i < j < n -> nth_error elements j = Some el' ->
                                  isHit el' x y = false
  | None =>
      forall j el', j < n -> nth_error elements j = Some el' -> isHit el' x y = false
  end.
Proof.
  induction n as [|i IH]; cbn [scanFrom].
  - intros j el' Hj. lia.
  - destruct (nth_error elements i) as [el|] eqn:Hi.
    + destruct (isHit el x y) eqn:Hhit.
      * exists i. repeat split; auto. intros j el' Hj. lia.
      * destruct (scanFrom elements i x y) as [el0|].
        -- destruct IH as (k & Hk & Hnth & Hh & Habove).
           exists k. repeat split; auto.
           intros j el' Hj Hj'.
           destruct (Nat.eq_dec j i) as [->|Hne].
           ++ congruence.
           ++ apply (Habove j); auto. lia.
        -- intros j el' Hj Hj'.
           destruct (Nat.eq_dec j i) as [->|Hne].
           ++ congruence.
           ++ apply (IH j); auto. lia.
    + destruct (scanFrom elements i x y) as [el0|].
      * destruct IH as (k & Hk & Hnth & Hh & Habove).
        exists k. repeat split; auto.
        intros j el' Hj Hj'.
        destruct (Nat.eq_dec j i) as [->|Hne].
        -- congruence.
        -- apply (Habove j); auto. lia.
      * intros j el' Hj Hj'.
        destruct (Nat.eq_dec j i) as [->|Hne].
        -- congruence.
        -- apply (IH j); auto. lia.
Qed.

(** The element returned is one of the sequence. *)
Lemma getElementAtPosition_In (elements : list (Element T)) (x y : T)
    (hit : Element T) :
  getElementAtPosition elements x y = Some hit -> In hit elements.
Proof.
  unfold getElementAtPosition. intros Hhit.
  pose proof (scanFrom_topmost elements x y (List.length elements)) as H.
  rewrite Hhit in H. destruct H as (i & _ & Hnth & _).
  exact (nth_error_In _ _ Hnth).
Qed.

(** C4.  [getElementAtPosition] visits the sequence from its last element
    backward and returns the first element that [isHit] accepts, and nothing
    when no element is hit: it is the search of the reversed sequence, the
    element it returns is hit and no element after it in insertion order is,
    so of several hit elements the last inserted wins. *)
Theorem getElementAtPosition_topmost (elements : list (Element T)) (x y : T) :
  getElementAtPosition elements x y
  = find (fun el => isHit el x y) (rev elements)
  /\ match getElementAtPosition elements x y with
     | Some el =>
         exists i, nth_error elements i = Some el /\ isHit el x y = true
                   /\ forall j el', i < j -> nth_error elements j = Some el' ->
                                     isHit el' x y = false
     | None => forall el, In el elements -> isHit el x y = false
     end.
Proof.
  unfold getElementAtPosition. split.
  - rewrite scanFrom_find by lia. rewrite firstn_all. reflexivity.
  - pose proof (scanFrom_topmost elements x y (List.length elements)) as H.
    destruct (scanFrom elements (List.length elements) x y) as [el|].
    + destruct H as (i & Hi & Hnth & Hhit & Habove).
      exists i. repeat split; auto.
      intros j el' Hj Hj'. apply (Habove j); auto. split; auto.
      apply nth_error_Some. congruence.
    + intros el Hin. apply In_nth_error in Hin. destruct Hin as [j Hj].
      apply (H j); auto. apply nth_error_Some. congruence.
Qed.

End TopMost.

(** ** Selecting with the interact tool *)

Section Selecting.

Context {T : Type} {num : Number T}.

Lemma includes_In (ids : list string) (id : string) :
  includes ids id = true <-> In id ids.
Proof.
  unfold includes. rewrite existsb_exists. split.
  - intros (i & Hin & Heq). apply String.eqb_eq in Heq. subst. exact Hin.
  - intros Hin. exists id. split; [exact Hin | apply String.eqb_refl].
Qed.

Lemma includes_not_In (ids : list string) (id : string) :
  includes ids id = false <-> ~ In id ids.
Proof.
  rewrite <- includes_In. destruct (includes ids id); split; congruence.
Qed.

(** C3.  Pointer-down with the interact tool.  When the hit test returns an
    element whose id is already selected, the selection is unchanged and a
    drag begins at the pointer position; when it returns an element that is
    not selected, the selection becomes exactly that id and a drag begins;
    when it returns nothing, the selection is emptied and a selection
    rectangle begins at the pointer position.  The element returned is the
    topmost one hit ([getElementAtPosition]). *)
Theorem handleStart_interact (s : State T) (x y : T) (id : string) :
  tool s = interact ->
  let s' := handleStart s x y id in
  isDrawing s' = true /\ elements s' = elements s
  /\ match getElementAtPosition (elements s) x y with
     | Some hit =>
         (In (el_id hit) (selectedElementIds s) ->
          selectedElementIds s' = selectedElementIds s)
         /\ (~ In (el_id hit) (selectedElementIds s) ->
             selectedElementIds s' = [el_id hit])
         /\ dragLastPos s' = Some {| px := x; py := y |}
         /\ selectionBox s' = None
     | None =>
         selectedElementIds s' = []
         /\ selectionBox s'
            = Some {| startX := x; startY := y; currentX := x; currentY := y |}
         /\ dragLastPos s' = None
     end.
Proof.
  intros Htool s'. subst s'. unfold handleStart. rewrite Htool.
  destruct (getElementAtPosition (elements s) x y) as [hit|].
  - destruct (includes (selectedElementIds s) (el_id hit)) eqn:Hinc; cbn.
    + repeat split; auto.
      apply includes_In in Hinc. intros Hn. contradiction.
    + repeat split; auto.
      apply includes_not_In in Hinc. intros Hin. contradiction.
  - cbn. repeat split; auto.
Qed.

End Selecting.

(** ** Erasing *)

Section Erasing.

Context {T : Type} {num : Number T}.

Lemma removeById_Removed (hit : Element T) (prev : list (Element T)) :
  Removed (el_id hit) prev (removeById hit prev).
Proof.
  unfold removeById. induction prev as [|el prev IH]; cbn [filter].
  - constructor.
  - destruct (String.eqb (el_id el) (el_id hit)) eqn:E; cbn [negb].
    + apply String.eqb_eq in E. now constructor.
    + apply String.eqb_neq in E. now constructor.
Qed.

(** [Removed] determines its result. *)
Lemma Removed_unique (id : string) (prev next1 next2 : list (Element T)) :
  Removed id prev next1 -> Removed id prev next2 -> next1 = next2.
Proof.
  intros H1. revert next2.
  induction H1; intros next2 H2; inversion H2; subst;
    try contradiction; try reflexivity; auto.
  f_equal. auto.
Qed.

Lemma Removed_In (id : string) (prev next : list (Element T)) :
  Removed id prev next ->
  forall el, In el next <-> In el prev /\ el_id el <> id.
Proof.
  induction 1 as [|e prev next He _ IH|e prev next He _ IH]; intros el; cbn [In].
  - tauto.
  - rewrite IH. split; [tauto|]. intros [[->|Hin] Hne]; [contradiction | tauto].
  - rewrite IH. split.
    + intros [->|[Hin Hne]]; tauto.
    + intros [[->|Hin] Hne]; tauto.
Qed.

(** C10.  An erase action, by pointer-down or by pointer-move while the
    pointer is down, whose hit test returns an element leaves the sequence
    without the entries that bear that element's id, every other entry
    unchanged and in the same order; when the hit test returns nothing the
    sequence is unchanged.  A pointer-move while the pointer is up makes no
    hit test and changes nothing. *)
Theorem erase_removes_hit_only (s : State T) (x y : T) (id : string) :
  tool s = eraser ->
  (let s' := handleStart s x y id in
   match getElementAtPosition (elements s) x y with
   | Some hit => Removed (el_id hit) (elements s) (elements s')
   | None => elements s' = elements s
   end)
  /\ (isDrawing s = true ->
      exists s', handleMove s x y = Some s'
        /\ match getElementAtPosition (elements s) x y with
           | Some hit => Removed (el_id hit) (elements s) (elements s')
           | None => elements s' = elements s
           end)
  /\ (isDrawing s = false -> handleMove s x y = Some s).
Proof.
  intros Htool. split; [|split].
  - unfold handleStart. rewrite Htool.
    destruct (getElementAtPosition (elements s) x y) as [hit|]; cbn.
    + apply removeById_Removed.
    + reflexivity.
  - intros Hdown. unfold handleMove. rewrite Htool, Hdown. cbn.
    destruct (getElementAtPosition (elements s) x y) as [hit|]; eexists; split;
      try reflexivity; cbn.
    apply removeById_Removed.
  - intros Hup. unfold handleMove. now rewrite Htool, Hup.
Qed.

End Erasing.

(** ** The selection and the sequence *)

Section Selection.

Context {T : Type} {num : Number T}.
Local Open Scope js_scope.

Lemma selectionValidb_spec (s : State T) :
  selectionValidb s = true <-> selectionValid s.
Proof.
  unfold selectionValidb, selectionValid. rewrite forallb_forall.
  split; intros H id Hin.
  - apply H in Hin. apply existsb_exists in Hin.
    destruct Hin as (el & Hel & Heq). apply String.eqb_eq in Heq. eauto.
  - destruct (H id Hin) as (el & Hel & Heq). apply existsb_exists.
    exists el. split; [exact Hel | now apply String.eqb_eq].
Qed.

Lemma reachable_step (s s' : State T) (e : Event T) :
  reachable s -> step s e = Some s' -> reachable s'.
Proof.
  intros [es Hes] Hstep. exists (es ++ [e]).
  revert Hes. generalize (@initialState T). induction es as [|e0 es IH]; intros s0; cbn.
  - intros [= ->]. now rewrite Hstep.
  - destruct (step s0 e0); [apply IH | discriminate].
Qed.

Lemma selectedMarkerState_reachable (x y : T) (id : string) :
  isHit (Player id x y #8 "#ef4444") x y = true ->
  run initialState (selectedMarkerTrace x y id) = Some (selectedMarkerState x y id).
Proof.
  intros Hhit. cbn -[isHit]. rewrite Hhit. reflexivity.
Qed.

Lemma el_id_dragElement (ids : list string) (dx dy : T) (el : Element T) :
  el_id (dragElement ids dx dy el) = el_id el.
Proof.
  unfold dragElement. destruct (includes ids (el_id el)); destruct el; reflexivity.
Qed.

Lemma selectionValid_grow (s s' : State T) :
  selectedElementIds s' = selectedElementIds s ->
  (forall el, In el (elements s) -> exists el', In el' (elements s') /\ el_id el' = el_id el) ->
  selectionValid s -> selectionValid s'.
Proof.
  intros Hsel Hel Hv id Hin. rewrite Hsel in Hin.
  destruct (Hv id Hin) as (el & Hel1 & <-). exact (Hel el Hel1).
Qed.

(** X20.  Every event other than undo and a pointer-down or pointer-move
    with the eraser tool preserves the invariant that every selected id
    references an element of the sequence; clear-all empties the selection
    together with the sequence. *)
Lemma selectionValid_step (s s' : State T) (e : Event T) :
  removesOnly s e = false ->
  selectionValid s -> step s e = Some s' -> selectionValid s'.
Proof.
  intros Hrm Hv Hstep. destruct e; cbn in Hstep, Hrm; try discriminate.
  - (* handleStart *)
    injection Hstep as <-. unfold handleStart.
    destruct (tool s) eqn:Htool; try discriminate.
    + (* player *)
      apply selectionValid_grow with (s := s); cbn; auto.
      intros el Hin. exists el. split; [apply in_or_app; now left | reflexivity].
    + exact Hv.
    + exact Hv.
    + exact Hv.
    + (* interact *)
      destruct (getElementAtPosition (elements s) x y) as [hit|] eqn:Hhit.
      * destruct (includes (selectedElementIds s) (el_id hit)) eqn:Hinc; cbn.
        -- exact Hv.
        -- intros i [<-|[]]. exists hit. split; [|reflexivity].
           exact (getElementAtPosition_In _ _ _ Hhit).
      * intros i [].
  - (* handleMove *)
    unfold handleMove in Hstep.
    destruct (tool s) eqn:Htool; try discriminate;
      destruct (isDrawing s) eqn:Hd; cbn in Hstep;
      try (injection Hstep as <-; exact Hv);
      try (destruct (currentElement s) as [prev|];
           [ first [ injection Hstep as <-; exact Hv
                   | destruct (appendPoint x y prev);
                     [injection Hstep as <-; exact Hv | discriminate] ]
           | injection Hstep as <-; exact Hv ]).
    destruct (selectionBox s) as [box|].
    + injection Hstep as <-. exact Hv.
    + destruct (selectedElementIds s) as [|i0 ids] eqn:Hsel;
        [injection Hstep as <-; exact Hv|].
      destruct (dragLastPos s) as [last|]; injection Hstep as <-; [|exact Hv].
      apply selectionValid_grow with (s := s); cbn; auto.
      intros el Hin. eexists. split; [apply in_map, Hin|].
      apply el_id_dragElement.
  - (* handleEnd *)
    injection Hstep as <-. unfold handleEnd.
    assert (Hin : forall st : State T,
               (forall el, In el (elements s) -> In el (elements st)) ->
               (forall i, In i (selectedElementIds st) ->
                          exists el, In el (elements s) /\ el_id el = i) ->
               selectionValid
                 match currentElement s with
                 | Some el => setCurrentElement None
                                (setElements (fun prev => prev ++ [el]) st)
                 | None => st
                 end).
    { intros st Hels Hsel i Hi.
      destruct (currentElement s); cbn in *.
      - destruct (Hsel i Hi) as (el & Hel & <-). exists el. split; auto.
        apply in_or_app. left. auto.
      - destruct (Hsel i Hi) as (el & Hel & <-). exists el. auto. }
    apply Hin.
    + destruct (tool s); try (cbn; tauto).
      destruct (selectionBox s); cbn; tauto.
    + destruct (tool s); try exact Hv.
      destruct (selectionBox s) as [box|]; cbn; [|exact Hv].
      intros i Hi. apply in_map_iff in Hi. destruct Hi as (el & <- & Hel).
      apply filter_In in Hel. exists el. tauto.
  - injection Hstep as <-. exact Hv.
  - injection Hstep as <-. exact Hv.
  - match type of Hstep with (if ?b then _ else _) = _ => destruct b end;
      [|discriminate]. injection Hstep as <-. exact Hv.
  - injection Hstep as <-. exact Hv.
  - destruct (showClearConfirm s); [|discriminate]. injection Hstep as <-.
    intros i [].
  - destruct (showClearConfirm s); [|discriminate]. injection Hstep as <-. exact Hv.
  - injection Hstep as <-. exact Hv.
Qed.

(** C1 (the code departs from it).  After a marker has been placed and
    selected, erasing it by pointer-down, erasing it by pointer-move, and
    undo each lead to a reachable state in which the selection holds the id
    of an element that is no longer in the sequence. *)
Theorem selection_outlives_removed_element (x y x' y' : T) (id : string) :
  isHit (Player id x y #8 "#ef4444") x y = true ->
  isHit (Player id x y #8 "#ef4444") x' y' = false ->
  let s := selectedMarkerState x y id in
  reachable s /\ selectionValid s
  /\ (exists s', step s (PointerDown x y id) = Some s'
                 /\ reachable s' /\ ~ selectionValid s')
  /\ (exists s1 s', step s (PointerDown x' y' id) = Some s1
                    /\ selectionValid s1
                    /\ step s1 (PointerMove x y) = Some s'
                    /\ reachable s' /\ ~ selectionValid s')
  /\ (exists s', step s Undo = Some s' /\ reachable s' /\ ~ selectionValid s').
Proof.
  intros Hhit Hmiss s.
  assert (Hreach : reachable s).
  { exists (selectedMarkerTrace x y id). now apply selectedMarkerState_reachable. }
  assert (Hvalid : selectionValid s).
  { intros i [<-|[]]. eexists. split; [left; reflexivity | reflexivity]. }
  assert (Hstale : forall st : State T,
             elements st = [] -> selectedElementIds st = [id] -> ~ selectionValid st).
  { intros st He Hs Hv. destruct (Hv id) as (el & Hel & _).
    - rewrite Hs. now left.
    - rewrite He in Hel. destruct Hel. }
  split; [exact Hreach|]. split; [exact Hvalid|]. split; [|split].
  - exists (handleStart s x y id). split; [reflexivity|].
    split; [now apply reachable_step with (s := s) (e := PointerDown x y id)|].
    apply Hstale; cbn -[isHit]; rewrite Hhit; cbn; [|reflexivity].
    now rewrite String.eqb_refl.
  - assert (Hs1 : step s (PointerDown x' y' id) = Some (setIsDrawing true s)).
    { cbn -[isHit]. now rewrite Hmiss. }
    assert (Hs2 : step (setIsDrawing true s) (PointerMove x y)
                  = Some (setElements (removeById (Player id x y #8 "#ef4444"))
                                      (setIsDrawing true s))).
    { cbn -[isHit removeById]. now rewrite Hhit. }
    eexists. eexists. split; [exact Hs1|].
    split; [exact Hvalid|]. split; [exact Hs2|].
    split.
    + eapply reachable_step; [|exact Hs2].
      eapply reachable_step; [exact Hreach | exact Hs1].
    + apply Hstale; cbn; [|reflexivity].
      now rewrite String.eqb_refl.
  - exists (handleUndo s). split; [reflexivity|].
    split; [now apply reachable_step with (s := s) (e := Undo)|].
    apply Hstale; reflexivity.
Qed.

End Selection.

(** ** The early return of the field renderer *)

Section Guard.

Context {T : Type} {num : Number T}.
Local Open Scope js_scope.

(** When the test [width <= padding * 2 || height <= padding * 2] succeeds
    the background is filled and [drawField] returns. *)
Lemma drawField_return (viewMode : ViewMode) (width height : T) :
  (width <=? #30 * #2) || (height <=? #30 * #2) = true ->
  drawField viewMode width height
  = ([Canvas (fillStyle FIELD_COLOR); Canvas (fillRect #0 #0 width height)], tt).
Proof.
  intros Hguard. unfold drawField. cbv zeta. now rewrite Hguard.
Qed.

End Guard.

(** ** Exact arithmetic *)

(** From here on numbers are real numbers: the statements are those of the
    source read with exact arithmetic. *)

Local Open Scope R_scope.

Lemma Rltb_lt (a b : R) : Rltb a b = true <-> a < b.
Proof. unfold Rltb. destruct (Rlt_dec a b); split; auto; discriminate. Qed.

Lemma Rltb_ge (a b : R) : Rltb a b = false <-> b <= a.
Proof.
  unfold Rltb. destruct (Rlt_dec a b); split; auto; try discriminate; lra.
Qed.

Lemma Rleb_le (a b : R) : Rleb a b = true <-> a <= b.
Proof. unfold Rleb. destruct (Rle_dec a b); split; auto; discriminate. Qed.

Lemma Rleb_gt (a b : R) : Rleb a b = false <-> b < a.
Proof.
  unfold Rleb. destruct (Rle_dec a b); split; auto; try discriminate; lra.
Qed.

Lemma Reqb_eq (a b : R) : Reqb a b = true <-> a = b.
Proof. unfold Reqb. destruct (Req_dec_T a b); split; auto; discriminate. Qed.

Lemma Reqb_neq (a b : R) : Reqb a b = false <-> a <> b.
Proof.
  unfold Reqb. destruct (Req_dec_T a b); split; auto; try discriminate.
  contradiction.
Qed.

Lemma sqrt_lt_bound (a c : R) : 0 < c -> a < c * c -> sqrt a < c.
Proof.
  intros Hc Ha. destruct (Rle_dec 0 a) as [H0|H0].
  - rewrite <- (sqrt_square c) by lra. apply sqrt_lt_1; nra.
  - rewrite sqrt_neg_0 by lra. exact Hc.
Qed.

Lemma sqrt_le_bound (a c : R) : 0 <= c -> a <= c * c -> sqrt a <= c.
Proof.
  intros Hc Ha. rewrite <- (sqrt_square c) by lra. now apply sqrt_le_1_alt.
Qed.

Lemma sqrt_ge_bound (a c : R) : 0 <= c -> c * c <= a -> c <= sqrt a.
Proof.
  intros Hc Ha. rewrite <- (sqrt_square c) at 1 by lra. now apply sqrt_le_1_alt.
Qed.

Lemma sqrt_gt_bound (a c : R) : 0 <= c -> c * c < a -> c < sqrt a.
Proof.
  intros Hc Ha. rewrite <- (sqrt_square c) at 1 by lra. apply sqrt_lt_1; nra.
Qed.

(** *** Point-to-segment distance *)

(** The value [pointToLineDistance] returns is the distance from [p] to the
    point of the segment at some parameter in [[0, 1]], and no point of the
    segment is nearer. *)
Lemma pointToLineDistance_nearest (p s e : Point R) :
  exists t, 0 <= t <= 1
    /\ value (pointToLineDistance p s e) = sqrt (sqDistAt p s e t)
    /\ forall t', 0 <= t' <= 1 -> sqDistAt p s e t <= sqDistAt p s e t'.
Proof.
  destruct p as [x y], s as [sx sy], e as [ex ey].
  unfold pointToLineDistance, sqDistAt. cbn.
  set (A := x - sx). set (B := y - sy). set (C := ex - sx). set (D := ey - sy).
  set (dot := A * C + B * D). set (lenSq := C * C + D * D).
  destruct (Reqb lenSq 0) eqn:Hlen; cbn.
  - (* a segment of length zero *)
    apply Reqb_eq in Hlen.
    assert (HC : C = 0) by (unfold lenSq in Hlen; nra).
    assert (HD : D = 0) by (unfold lenSq in Hlen; nra).
    replace (Rltb (-1) 0) with true by (symmetry; apply Rltb_lt; lra). cbn.
    exists 0. split; [lra|]. split.
    + f_equal. unfold A, B. ring.
    + intros t' _. rewrite HC, HD. right. ring.
  - apply Reqb_neq in Hlen.
    assert (Hpos : 0 < lenSq) by (unfold lenSq in *; nra).
    set (param := dot / lenSq).
    assert (Hdot : dot = param * lenSq) by (unfold param; field; lra).
    clearbody param.
    destruct (Rltb param 0) eqn:H0; cbn.
    + apply Rltb_lt in H0.
      exists 0. split; [lra|]. split.
      * f_equal. unfold A, B. ring.
      * intros t' Ht'.
        assert (0 <= t' * (- param) * lenSq).
        { apply Rmult_le_pos; [apply Rmult_le_pos|]; lra. }
        assert (0 <= t' * t' * lenSq).
        { apply Rmult_le_pos; [apply Rmult_le_pos|]; lra. }
        match goal with |- ?l <= ?r =>
          assert (Heq : r - l = t' * t' * lenSq - 2 * t' * dot)
            by (unfold lenSq, dot, A, B, C, D; ring)
        end.
        rewrite Hdot in Heq. clearbody lenSq. lra.
    + apply Rltb_ge in H0.
      destruct (Rltb 1 param) eqn:H1; cbn.
      * apply Rltb_lt in H1.
        exists 1. split; [lra|]. split.
        -- f_equal. unfold C, D. ring.
        -- intros t' Ht'.
           assert (0 <= (1 - t') * (param - 1) * lenSq).
           { apply Rmult_le_pos; [apply Rmult_le_pos|]; lra. }
           assert (0 <= (1 - t') * (1 - t') * lenSq).
           { apply Rmult_le_pos; [apply Rmult_le_pos|]; lra. }
           match goal with |- ?l <= ?r =>
             assert (Heq : r - l = (t' * t' - 1) * lenSq + 2 * (1 - t') * dot)
               by (unfold lenSq, dot, A, B, C, D; ring)
           end.
           rewrite Hdot in Heq. clearbody lenSq. lra.
      * apply Rltb_ge in H1.
        exists param. split; [lra|]. split.
        -- f_equal. unfold C, D. ring.
        -- intros t' Ht'.
           assert (0 <= (t' - param) * (t' - param) * lenSq).
           { apply Rmult_le_pos; [apply (Rle_0_sqr (t' - param)) | lra]. }
           match goal with |- ?l <= ?r =>
             assert (Heq : r - l = (t' * t' - param * param) * lenSq
                                   - 2 * (t' - param) * dot)
               by (unfold lenSq, dot, A, B, C, D; ring)
           end.
           rewrite Hdot in Heq. clearbody lenSq. lra.
Qed.

Lemma distance_onSegment (p s e q : Point R) (t : R) :
  px q = px s + t * (px e - px s) -> py q = py s + t * (py e - py s) ->
  distance p q = sqrt (sqDistAt p s e t).
Proof.
  intros Hx Hy. unfold distance, sqDistAt. cbn. now rewrite Hx, Hy.
Qed.

Lemma pointToLineDistance_isSegmentDistance (p s e : Point R) :
  isSegmentDistance p s e (value (pointToLineDistance p s e)).
Proof.
  destruct (pointToLineDistance_nearest p s e) as (t & Ht & Hval & Hmin).
  split.
  - exists {| px := px s + t * (px e - px s); py := py s + t * (py e - py s) |}.
    split.
    + exists t. cbn. auto.
    + rewrite Hval. now apply distance_onSegment.
  - intros q (t' & Ht' & Hx & Hy).
    rewrite Hval, (distance_onSegment p s e q Hx Hy).
    apply sqrt_le_1_alt. now apply Hmin.
Qed.

(** X21.  Every division [pointToLineDistance] performs has a denominator
    other than zero, whatever the point and the segment. *)
Lemma pointToLineDistance_divisions (p s e : Point R) :
  Forall (fun d => d <> 0) (denominators (events (pointToLineDistance p s e))).
Proof.
  destruct p as [x y], s as [sx sy], e as [ex ey].
  unfold pointToLineDistance. cbn.
  set (lenSq := (ex - sx) * (ex - sx) + (ey - sy) * (ey - sy)).
  destruct (Reqb lenSq 0) eqn:Hlen; cbn.
  - replace (Rltb (-1) 0) with true by (symmetry; apply Rltb_lt; lra).
    constructor.
  - apply Reqb_neq in Hlen.
    destruct (Rltb _ 0); [|destruct (Rltb 1 _)]; cbn; repeat constructor; exact Hlen.
Qed.

(** C7.  On a segment whose end points are equal, [pointToLineDistance] is
    the distance to that point, and computing it performs no division. *)
Theorem pointToLineDistance_degenerate (p s : Point R) :
  value (pointToLineDistance p s s) = distance p s
  /\ denominators (events (pointToLineDistance p s s)) = [].
Proof.
  destruct p as [x y], s as [sx sy].
  unfold pointToLineDistance, distance. cbn.
  assert (Hlen : Reqb ((sx - sx) * (sx - sx) + (sy - sy) * (sy - sy)) 0 = true).
  { apply Reqb_eq. ring. }
  rewrite Hlen. cbn.
  replace (Rltb (-1) 0) with true by (symmetry; apply Rltb_lt; lra). cbn.
  split; [|reflexivity]. f_equal. ring.
Qed.

(** *** Hit testing a line and a zone *)

Ltac Rtrue := symmetry; first [apply Rltb_lt | apply Rleb_le]; lra.
Ltac Rfalse := symmetry; first [apply Rltb_ge | apply Rleb_gt]; lra.

(** The line from (0,0) to (50,0) is at distance 5 from (25,5) and at
    distance 20 from (25,20). *)
Lemma line_scenario_distances :
  value (pointToLineDistance {| px := 25; py := 5 |} {| px := 0; py := 0 |}
                             {| px := 50; py := 0 |}) = 5
  /\ value (pointToLineDistance {| px := 25; py := 20 |} {| px := 0; py := 0 |}
                                {| px := 50; py := 0 |}) = 20.
Proof.
  unfold pointToLineDistance. cbn.
  replace (Reqb ((50 - 0) * (50 - 0) + (0 - 0) * (0 - 0)) 0) with false
    by (symmetry; apply Reqb_neq; lra).
  cbn. split.
  - replace (Rltb _ 0) with false by Rfalse.
    replace (Rltb 1 _) with false by Rfalse.
    cbn. apply sqrt_lem_1; lra.
  - replace (Rltb _ 0) with false by Rfalse.
    replace (Rltb 1 _) with false by Rfalse.
    cbn. apply sqrt_lem_1; lra.
Qed.

(** C5.  A line is hit exactly when the distance from the point to its
    segment is below 10: the value compared with the threshold is the
    distance to the segment.  The line from (0,0) to (50,0) is hit at (25,5),
    at distance 5, and not at (25,20). *)
Theorem isHit_line (id color : string) (sx sy ex ey x y : R) :
  let d := value (pointToLineDistance {| px := x; py := y |} {| px := sx; py := sy |}
                                      {| px := ex; py := ey |}) in
  isSegmentDistance {| px := x; py := y |} {| px := sx; py := sy |}
                    {| px := ex; py := ey |} d
  /\ (isHit (Line id sx sy ex ey color) x y = true <-> d < 10)
  /\ value (pointToLineDistance {| px := 25; py := 5 |} {| px := 0; py := 0 |}
                                {| px := 50; py := 0 |}) = 5
  /\ isHit (Line id 0 0 50 0 color) 25 5 = true
  /\ isHit (Line id 0 0 50 0 color) 25 20 = false.
Proof.
  intros d. destruct line_scenario_distances as [H5 H20].
  split; [apply pointToLineDistance_isSegmentDistance|].
  split; [apply Rltb_lt|]. split; [exact H5|].
  cbn [isHit]. rewrite H5, H20. split.
  - apply Rltb_lt. cbn. lra.
  - apply Rltb_ge. cbn. lra.
Qed.

(** The radius a zone is drawn with: the operand of the [arc] call that
    strokes its outline. *)
Lemma drawElement_zone_radius (atan2 : R -> R -> R) (cos sin : R -> R)
    (selected : list string) (id color : string) (sx sy ex ey : R) :
  let r := Rmax (distance {| px := sx; py := sy |} {| px := ex; py := ey |}) 10 in
  exists after,
    canvas_ops (events (drawElement atan2 cos sin selected
                                    (Circle id sx sy ex ey color)))
    = [strokeStyle color; lineWidth 3; lineCap "round"; lineJoin "round";
       beginPath; arc sx sy r 0 (PI * 2); fillStyle (color ++ "20"); fill; stroke]
      ++ after.
Proof.
  intros r. unfold drawElement. cbn -[distance].
  destruct (includes selected id); cbn -[distance]; eexists; reflexivity.
Qed.

(** C6.  A zone is hit exactly when the distance from the point to its start
    point is at most its effective radius, the larger of the distance between
    its start and end points and 10, which is the radius it is drawn with.
    The zone from (0,0) to (0,20) has effective radius 20; it is hit at
    (0,19) and not at (0,25). *)
Theorem isHit_zone (id color : string) (sx sy ex ey x y : R) :
  let r := Rmax (distance {| px := sx; py := sy |} {| px := ex; py := ey |}) 10 in
  (isHit (Circle id sx sy ex ey color) x y = true
   <-> distance {| px := x; py := y |} {| px := sx; py := sy |} <= r)
  /\ (forall atan2 cos sin selected,
        In (arc sx sy r 0 (PI * 2))
           (canvas_ops (events (drawElement atan2 cos sin selected
                                            (Circle id sx sy ex ey color)))))
  /\ Rmax (distance {| px := 0; py := 0 |} {| px := 0; py := 20 |}) 10 = 20
  /\ isHit (Circle id 0 0 0 20 color) 0 19 = true
  /\ isHit (Circle id 0 0 0 20 color) 0 25 = false.
Proof.
  intros r.
  assert (H20 : distance {| px := 0; py := 0 |} {| px := 0; py := 20 |} = 20).
  { unfold distance. cbn. apply sqrt_lem_1; lra. }
  assert (H19 : distance {| px := 0; py := 19 |} {| px := 0; py := 0 |} = 19).
  { unfold distance. cbn. apply sqrt_lem_1; lra. }
  assert (H25 : distance {| px := 0; py := 25 |} {| px := 0; py := 0 |} = 25).
  { unfold distance. cbn. apply sqrt_lem_1; lra. }
  assert (Hmax : Rmax 20 10 = 20) by (apply Rmax_left; lra).
  split; [apply Rleb_le|]. split.
  - intros atan2 cos sin selected.
    destruct (drawElement_zone_radius atan2 cos sin selected id color sx sy ex ey)
      as (after & ->).
    cbn. tauto.
  - cbn [isHit]. rewrite H20, H19, H25. split; [exact Hmax|].
    change (Math_max 20 (ofZ 10)) with (Rmax 20 10). rewrite Hmax. split.
    + apply Rleb_le. lra.
    + apply Rleb_gt. lra.
Qed.

(** *** Group drag *)


(** What one step of a group drag does to an element: a selected element is
    translated by the delta, whatever its kind, and an element that is not
    selected is left as it is. *)
Lemma dragElement_translates (ids : list string) (dx dy : R) (el : Element R) :
  (In (el_id el) ids ->
   match el, dragElement ids dx dy el with
   | Player id x y r c, Player id' x' y' r' c' =>
       id' = id /\ x' = x + dx /\ y' = y + dy /\ r' = r /\ c' = c
   | Circle id sx sy ex ey c, Circle id' sx' sy' ex' ey' c'
   | Line id sx sy ex ey c, Line id' sx' sy' ex' ey' c' =>
       id' = id /\ sx' = sx + dx /\ sy' = sy + dy
       /\ ex' = ex + dx /\ ey' = ey + dy /\ c' = c
   | Freehand id pts c, Freehand id' pts' c' =>
       id' = id /\ c' = c
       /\ pts' = map (fun p => {| px := px p + dx; py := py p + dy |}) pts
   | _, _ => False
   end)
  /\ (~ In (el_id el) ids -> dragElement ids dx dy el = el).
Proof.
  unfold dragElement. split; intros H.
  - apply includes_In in H. destruct el; cbn [el_id] in *; rewrite H; cbn; auto 10.
  - apply includes_not_In in H. now rewrite H.
Qed.


(** *** The field renderer *)

Ltac not_raising :=
  repeat (constructor; [first [exact (fun H : False => H)
                              | cbn; apply Rle_not_lt, Rmax_l] |]);
  try constructor.

(** The early return of [drawField], for real numbers. *)
Lemma drawField_guard (viewMode : ViewMode) (width height : R) :
  width <= 30 * 2 \/ height <= 30 * 2 ->
  drawField viewMode width height
  = ([Canvas (fillStyle FIELD_COLOR); Canvas (fillRect 0 0 width height)], tt).
Proof.
  intros Hsmall. refine (@drawField_return R RNumber viewMode width height _).
  apply orb_true_iff. destruct Hsmall; [left | right]; now apply Rleb_le.
Qed.

(** C8.  When the canvas leaves no room for the field after the padding on
    both sides has been taken off its width or its height, the renderer sets
    the fill style to the background colour and fills the canvas, and does
    nothing else: no field marking is drawn, no call can raise, and no
    division is performed. *)
Theorem drawField_small_canvas (viewMode : ViewMode) (width height : R) :
  width - 30 * 2 <= 0 \/ height - 30 * 2 <= 0 ->
  events (drawField viewMode width height)
  = [Canvas (fillStyle FIELD_COLOR); Canvas (fillRect 0 0 width height)]
  /\ denominators (events (drawField viewMode width height)) = []
  /\ Forall (fun op => ~ raises op)
            (canvas_ops (events (drawField viewMode width height))).
Proof.
  intros Hsmall. rewrite drawField_guard by lra.
  repeat split. cbn. not_raising.
Qed.

(** On a canvas with room for the field, in either view mode, every
    denominator is other than zero and no [arc] has a negative radius. *)
Lemma drawField_safe (viewMode : ViewMode) (width height : R) :
  Forall (fun d => d <> 0) (denominators (events (drawField viewMode width height)))
  /\ Forall (fun op => ~ raises op)
            (canvas_ops (events (drawField viewMode width height))).
Proof.
  destruct (Rleb width (30 * 2) || Rleb height (30 * 2)) eqn:Hguard.
  - apply orb_true_iff in Hguard.
    rewrite drawField_guard
      by (destruct Hguard as [H|H]; apply Rleb_le in H; [left | right]; exact H).
    split; cbn; not_raising.
  - apply orb_false_iff in Hguard. destruct Hguard as [Hw Hh].
    apply Rleb_gt in Hw, Hh.
    unfold drawField. cbn -[drawFullField drawHalfField].
    replace (Rleb width (30 * 2)) with false by Rfalse.
    replace (Rleb height (30 * 2)) with false by Rfalse.
    destruct viewMode; cbn -[drawFullField drawHalfField];
      match goal with |- context [Rltb ?a ?b] => destruct (Rltb a b) end;
      cbn; split;
      repeat (constructor; [first [exact (fun H : False => H)
                                  | cbn; apply Rle_not_lt, Rmax_l
                                  | lra] |]);
      constructor.
Qed.

(** In full-field mode, whatever the size of a canvas with room for the
    field, the boundary rectangle is the only rectangle stroked; the margins
    left and right of it are equal, the margins above and below it are
    equal, each is at least the padding, and its sides are as 110 to 60. *)
Lemma drawField_full_centered (width height : R) :
  30 * 2 < width -> 30 * 2 < height ->
  exists x y w h,
    strokedRects (canvas_ops (events (drawField full width height))) = [(x, y, w, h)]
    /\ x = width - (x + w) /\ y = height - (y + h)
    /\ 30 <= x /\ 30 <= y
    /\ 0 < h /\ w / h = 110 / 60.
Proof.
  intros Hw Hh.
  unfold drawField. cbn -[drawFullField].
  replace (Rleb width (30 * 2)) with false by Rfalse.
  replace (Rleb height (30 * 2)) with false by Rfalse.
  cbn -[drawFullField].
  set (W := width - 30 * 2). set (H := height - 30 * 2).
  assert (HW : 0 < W) by (unfold W; lra).
  assert (HH : 0 < H) by (unfold H; lra).
  assert (Hratio : W = W / H * H) by (field; lra).
  destruct (Rltb (110 / 60) (W / H)) eqn:Hc; cbn.
  - apply Rltb_lt in Hc.
    assert (110 / 60 * H < W) by (rewrite Hratio; apply Rmult_lt_compat_r; lra).
    do 4 eexists. split; [reflexivity|].
    repeat split; [field | unfold H; lra | | lra | lra | field; lra].
    unfold W in *. lra.
  - apply Rltb_ge in Hc.
    assert (W <= 110 / 60 * H) by (rewrite Hratio; apply Rmult_le_compat_r; lra).
    assert (0 < W / (110 / 60)) by (apply Rdiv_lt_0_compat; lra).
    assert (W / (110 / 60) <= H).
    { apply Rmult_le_reg_l with (110 / 60); [lra|].
      replace (110 / 60 * (W / (110 / 60))) with W by (field; lra). lra. }
    do 4 eexists. split; [reflexivity|].
    repeat split; [unfold W; lra | field | lra | | lra | field; lra].
    unfold H in *. lra.
Qed.

(** The rectangle stroked on a canvas of 1000 by 600. *)
Lemma drawField_full_1000x600_rect :
  strokedRects (canvas_ops (events (drawField full 1000 600)))
  = [(30, 480 / 11, 940, 5640 / 11)].
Proof.
  unfold drawField. cbn -[drawFullField].
  replace (Rleb 1000 (30 * 2)) with false by Rfalse.
  replace (Rleb 600 (30 * 2)) with false by Rfalse.
  cbn -[drawFullField].
  replace (Rltb (110 / 60) ((1000 - 30 * 2) / (600 - 30 * 2))) with false by Rfalse.
  cbn.
  replace ((600 - (1000 - 30 * 2) / (110 / 60)) / 2) with (480 / 11) by field.
  replace ((1000 - 30 * 2) / (110 / 60)) with (5640 / 11) by field.
  replace (1000 - 30 * 2) with 940 by ring.
  reflexivity.
Qed.

(** C9, as amended.  On a canvas of 1000 by 600 in full-field mode the
    boundary rectangle is stroked at (30, 480/11) with size 940 by 5640/11:
    it is centred, the margins left and right are both 30 and the margins
    above and below are both 480/11, no margin is below 30, and width to
    height is 110 to 60. *)
Theorem drawField_full_1000x600 :
  exists x y w h,
    strokedRects (canvas_ops (events (drawField full 1000 600))) = [(x, y, w, h)]
    /\ x = 30 /\ 1000 - (x + w) = 30
    /\ y = 480 / 11 /\ 600 - (y + h) = 480 / 11
    /\ 30 <= x /\ 30 <= y
    /\ w / h = 110 / 60.
Proof.
  exists 30, (480 / 11), 940, (5640 / 11).
  split; [exact drawField_full_1000x600_rect|].
  repeat split; try lra; field.
Qed.

(** C9, as stated, fails: the four margins are not one and the same
    padding.  The margin above the rectangle is 480/11, the margin left of it
    is 30. *)
Lemma drawField_full_1000x600_margins_differ :
  ~ exists padding x y w h,
      strokedRects (canvas_ops (events (drawField full 1000 600))) = [(x, y, w, h)]
      /\ 30 <= padding
      /\ x = padding /\ 1000 - (x + w) = padding
      /\ y = padding /\ 600 - (y + h) = padding
      /\ w / h = 110 / 60.
Proof.
  intros (padding & x & y & w & h & Hrect & _ & Hx & _ & Hy & _).
  rewrite drawField_full_1000x600_rect in Hrect.
  injection Hrect as <- <- _ _. lra.
Qed.

(** * The code on concrete inputs *)

(** The statements above instantiated, with numbers read as binary64
    doubles where the statement holds for every [Number]. *)

Module Run.

Import Scenario.

(** The line and zone scenarios in binary64. *)
Example isHit_line_binary64 :
  isHit arrow (F64.ofZ 25) (F64.ofZ 5) = true
  /\ isHit arrow (F64.ofZ 25) (F64.ofZ 20) = false
  /\ value (pointToLineDistance {| px := F64.ofZ 25; py := F64.ofZ 5 |}
                                {| px := F64.ofZ 0; py := F64.ofZ 0 |}
                                {| px := F64.ofZ 50; py := F64.ofZ 0 |})
     = F64.ofZ 5.
Proof. vm_compute. repeat split. Qed.

Example isHit_zone_binary64 :
  let zone := Circle "z" (F64.ofZ 0) (F64.ofZ 0) (F64.ofZ 0) (F64.ofZ 20) "#ef4444" in
  isHit zone (F64.ofZ 0) (F64.ofZ 19) = true
  /\ isHit zone (F64.ofZ 0) (F64.ofZ 25) = false.
Proof. vm_compute. repeat split. Qed.

(** Pointer-down on the marker with the interact tool selects it alone. *)
Lemma handleStart_interact_witness :
  tool (board interact) = interact
  /\ selectedElementIds (handleStart (board interact) (F64.ofZ 100) (F64.ofZ 100) "c")
     = ["a"]%string
  /\ dragLastPos (handleStart (board interact) (F64.ofZ 100) (F64.ofZ 100) "c")
     = Some {| px := F64.ofZ 100; py := F64.ofZ 100 |}.
Proof.
  split; [reflexivity|].
  destruct (@handleStart_interact _ _ (board interact) (F64.ofZ 100) (F64.ofZ 100) "c"
              eq_refl) as (_ & _ & H).
  vm_compute in H. destruct H as (_ & Hsel & Hdrag & _).
  split; [|exact Hdrag].
  apply Hsel. intros [Hab|[]]. discriminate Hab.
Defined.

(** Pointer-down on the marker with the eraser tool removes it and keeps the
    line. *)
Lemma erase_removes_hit_only_witness :
  tool (board eraser) = eraser
  /\ Removed "a" [arrow; marker]
       (elements (handleStart (board eraser) (F64.ofZ 100) (F64.ofZ 100) "c"))
  /\ elements (handleStart (board eraser) (F64.ofZ 100) (F64.ofZ 100) "c") = [arrow].
Proof.
  split; [reflexivity|].
  destruct (@erase_removes_hit_only _ _ (board eraser) (F64.ofZ 100) (F64.ofZ 100) "c"
              eq_refl) as (H & _ & _).
  split; [exact H | reflexivity].
Defined.

(** The marker placed at (100, 100) is hit there and not at (300, 300): the
    state in which it is selected and the eraser is chosen is reachable, and
    undo from it leaves its id selected with no element behind it. *)
Lemma selection_outlives_removed_element_witness :
  isHit marker (F64.ofZ 100) (F64.ofZ 100) = true
  /\ isHit marker (F64.ofZ 300) (F64.ofZ 300) = false
  /\ exists s s' : State PrimFloat.float,
       reachable s /\ selectionValid s
       /\ step s (PointerDown (F64.ofZ 100) (F64.ofZ 100) "a") = Some s'
       /\ reachable s' /\ ~ selectionValid s'.
Proof.
  assert (Hhit : isHit marker (F64.ofZ 100) (F64.ofZ 100) = true) by reflexivity.
  assert (Hmiss : isHit marker (F64.ofZ 300) (F64.ofZ 300) = false) by reflexivity.
  split; [exact Hhit|]. split; [exact Hmiss|].
  destruct (@selection_outlives_removed_element _ _ (F64.ofZ 100) (F64.ofZ 100)
              (F64.ofZ 300) (F64.ofZ 300) "a" Hhit Hmiss)
    as (Hreach & Hvalid & (s' & Hstep & Hreach' & Hstale) & _).
  exists (selectedMarkerState (F64.ofZ 100) (F64.ofZ 100) "a"), s'.
  repeat split; assumption.
Defined.


Lemma drawField_small_canvas_witness :
  (50 - 30 * 2 <= 0 \/ 600 - 30 * 2 <= 0)
  /\ events (drawField half 50 600)
     = [Canvas (fillStyle FIELD_COLOR); Canvas (fillRect 0 0 50 600)]
  /\ denominators (events (drawField half 50 600)) = [].
Proof.
  assert (Hsmall : 50 - 30 * 2 <= 0 \/ 600 - 30 * 2 <= 0) by (left; lra).
  split; [exact Hsmall|].
  destruct (@drawField_small_canvas half 50 600 Hsmall) as (Hev & Hden & _).
  split; assumption.
Defined.

(** In binary64 a drag there and back need not restore a coordinate bit for
    bit: a marker at x = 0.1 dragged by 0.2 and back ends at another
    double, less than 1e-15 away from where it started. *)
Example group_drag_round_trip_binary64 :
  let x := PrimFloat.div (F64.ofZ 1) (F64.ofZ 10) in
  let d := PrimFloat.div (F64.ofZ 2) (F64.ofZ 10) in
  let m := Player "a" x (F64.ofZ 0) (F64.ofZ 8) "#ef4444" in
  match dragElement ["a"]%string (PrimFloat.opp d) (F64.ofZ 0)
          (dragElement ["a"]%string d (F64.ofZ 0) m) with
  | Player _ x' _ _ _ =>
      PrimFloat.eqb x' x = false
      /\ PrimFloat.ltb
           (PrimFloat.mul (PrimFloat.abs (PrimFloat.sub x' x))
                          (F64.ofZ 1000000000000000))
           (F64.ofZ 1) = true
  | _ => False
  end.
Proof. vm_compute. split; reflexivity. Qed.

(** The two renderer scenarios in binary64: the rectangle is stroked at
    x = 30 with width 940, and its vertical margins agree to 1e-12. *)
Example drawField_small_canvas_binary64 :
  drawField half (F64.ofZ 50) (F64.ofZ 600)
  = ([Canvas (fillStyle FIELD_COLOR);
      Canvas (fillRect (F64.ofZ 0) (F64.ofZ 0) (F64.ofZ 50) (F64.ofZ 600))], tt).
Proof. vm_compute. reflexivity. Qed.

Example drawField_full_1000x600_binary64 :
  match strokedRects (canvas_ops (events (drawField full (F64.ofZ 1000) (F64.ofZ 600)))) with
  | [(x, y, w, h)] =>
      x = F64.ofZ 30 /\ w = F64.ofZ 940
      /\ PrimFloat.leb (F64.ofZ 30) y = true
      /\ PrimFloat.ltb
           (PrimFloat.mul
              (PrimFloat.abs
                 (PrimFloat.sub y (PrimFloat.sub (F64.ofZ 600) (PrimFloat.add y h))))
              (F64.ofZ 1000000000000))
           (F64.ofZ 1) = true
  | _ => False
  end.
Proof. vm_compute. repeat split. Qed.

(** On doubles, subtracting a finite number from itself gives [+0]; an
    infinity or a NaN gives NaN. *)
Lemma sub_diag_finite (x : PrimFloat.float) :
  PrimFloat.is_finite x = true -> PrimFloat.sub x x = PrimFloat.zero.
Proof.
  intros Hfin. apply FloatAxioms.Prim2SF_inj. rewrite FloatAxioms.sub_spec.
  unfold PrimFloat.is_finite, PrimFloat.is_nan, PrimFloat.is_infinity in Hfin.
  rewrite !FloatAxioms.eqb_spec, FloatAxioms.abs_spec in Hfin.
  destruct (FloatOps.Prim2SF x) as [sx|sx| |sx mx ex]; try discriminate Hfin.
  - destruct sx; reflexivity.
  - destruct sx; discriminate Hfin.
  - unfold FloatAxioms.SF64sub, SpecFloat.SFsub.
    cbv zeta. rewrite Z.sub_diag. reflexivity.
Qed.

(** The degenerate segment on doubles: for a finite point [s], on the
    segment from [s] to [s]
    the guarded division is skipped and the result is the very double that
    [distance] computes. *)
Lemma pointToLineDistance_degenerate_binary64 (p s : Point PrimFloat.float) :
  PrimFloat.is_finite (px s) = true -> PrimFloat.is_finite (py s) = true ->
  pointToLineDistance p s s = ([], distance p s).
Proof.
  intros Hx Hy. destruct p as [x y], s as [sx sy]. cbn [px py] in *.
  unfold pointToLineDistance, distance.
  cbv beta iota zeta delta [px py sub add mul FloatNumber].
  rewrite (sub_diag_finite sx Hx), (sub_diag_finite sy Hy).
  reflexivity.
Qed.

End Run.

(** * Further properties of the controller *)

Section Gestures.

Context {T : Type} {num : Number T}.
Local Open Scope js_scope.

(** *** Handlers and re-renders *)

Lemma last_default {A} (l : list A) : forall a d d',
  last (a :: l) d = last (a :: l) d'.
Proof.
  induction l as [|b l IH]; intros a d d'; [reflexivity|].
  change (last (b :: l) d = last (b :: l) d'). apply IH.
Qed.

Lemma fold_setEndPoint_Line (ps : list (Point T)) : forall id sx sy ex ey c,
  fold_left (fun e p => setEndPoint (px p) (py p) e) ps (Line id sx sy ex ey c)
  = Line id sx sy (px (last ps {| px := ex; py := ey |}))
                  (py (last ps {| px := ex; py := ey |})) c.
Proof.
  induction ps as [|p ps IH]; intros; cbn [fold_left]; [reflexivity|].
  cbn [setEndPoint]. rewrite IH. destruct ps as [|p0 ps]; [destruct p; reflexivity|].
  change (last (p :: p0 :: ps) {| px := ex; py := ey |})
    with (last (p0 :: ps) {| px := ex; py := ey |}).
  now rewrite (last_default ps p0 {| px := px p; py := py p |} {| px := ex; py := ey |}).
Qed.

Lemma fold_setEndPoint_Circle (ps : list (Point T)) : forall id sx sy ex ey c,
  fold_left (fun e p => setEndPoint (px p) (py p) e) ps (Circle id sx sy ex ey c)
  = Circle id sx sy (px (last ps {| px := ex; py := ey |}))
                    (py (last ps {| px := ex; py := ey |})) c.
Proof.
  induction ps as [|p ps IH]; intros; cbn [fold_left]; [reflexivity|].
  cbn [setEndPoint]. rewrite IH. destruct ps as [|p0 ps]; [destruct p; reflexivity|].
  change (last (p :: p0 :: ps) {| px := ex; py := ey |})
    with (last (p0 :: ps) {| px := ex; py := ey |}).
  now rewrite (last_default ps p0 {| px := px p; py := py p |} {| px := ex; py := ey |}).
Qed.


(** On a component that has just re-rendered, the handlers are those of the
    controller section. *)
Lemma dispatch_fresh (s : State T) (e : Event T) : dispatch s e s = step s e.
Proof.
  destruct e; try reflexivity. cbn [dispatch step].
  unfold handleMoveQ, handleMove.
  destruct (negb (isDrawing s) && negb (Tool_eqb (tool s) interact)); [reflexivity|].
  destruct (Tool_eqb (tool s) eraser && isDrawing s).
  { destruct (getElementAtPosition (elements s) x y); reflexivity. }
  destruct (Tool_eqb (tool s) interact && isDrawing s).
  { destruct (selectionBox s); [reflexivity|].
    destruct (selectedElementIds s); [reflexivity|].
    destruct (dragLastPos s); reflexivity. }
  destruct (currentElement s) as [prev|]; [|reflexivity].
  destruct (Tool_eqb (tool s) freehand); [|reflexivity].
  destruct (appendPoint x y prev); reflexivity.
Qed.

(** When React re-renders after every event, the component goes through the
    states of [run]. *)
Lemma runQ_rendered_each (es : list (Event T)) : forall s : State T,
  runQ (fresh s) (flat_map (fun e => [Dispatch e; Rerender]) es)
  = match run s es with Some s' => Some (fresh s') | None => None end.
Proof.
  induction es as [|e es IH]; intros s; [reflexivity|].
  cbn [flat_map app runQ stepQ run fresh rendered pending].
  rewrite dispatch_fresh. destruct (step s e) as [s'|]; [|reflexivity].
  cbn [pending]. apply IH.
Qed.

Lemma runQ_app (k : Component T) (a1 a2 : list (Action T)) :
  runQ k (a1 ++ a2)
  = match runQ k a1 with Some k1 => runQ k1 a2 | None => None end.
Proof.
  revert k. induction a1 as [|a a1 IH]; intros k; cbn; [reflexivity|].
  destruct (stepQ k a); [apply IH | reflexivity].
Qed.

(** X1.  The one updater a pointer-move queues that can raise is the one of
    the freehand tool.  Its handler queues it when, in its closure, the
    freehand tool is active, the pointer is down and an element is in
    progress; applied by React, the updater raises a [TypeError] exactly
    when the pending element in progress is missing or is not a freehand
    stroke, so that it has no [points] to spread.  The updaters of every
    other pointer-move raise nothing. *)
Theorem handleMoveQ_throws_iff (c p : State T) (x y : T) :
  handleMoveQ c x y p = Throws
  <-> tool c = freehand /\ isDrawing c = true /\ currentElement c <> None
      /\ match currentElement p with
         | Some prev => isFreehand prev = false
         | None => True
         end.
Proof.
  unfold handleMoveQ. split.
  - destruct (tool c) eqn:Htool; destruct (isDrawing c) eqn:Hd; cbn;
      try discriminate;
      try (destruct (getElementAtPosition (elements c) x y); discriminate);
      try (destruct (currentElement c); [destruct (currentElement p)|]; discriminate);
      try (destruct (selectionBox c); [destruct (selectionBox p); discriminate|];
           destruct (selectedElementIds c); [discriminate|];
           destruct (dragLastPos c); discriminate).
    destruct (currentElement c) as [cur|]; [|discriminate].
    destruct (currentElement p) as [prev|]; [|intros _; repeat split; discriminate].
    destruct prev; cbn; try discriminate; intros _; repeat split; discriminate.
  - intros (Htool & Hd & Hcur & Hprev).
    rewrite Htool, Hd. cbn.
    destruct (currentElement c); [|contradiction].
    destruct (currentElement p) as [prev|]; [|reflexivity].
    destruct prev; try discriminate; reflexivity.
Qed.

(** While a line or a zone is being drawn, each pointer-move moves the end
    point of the pending element; the render shows the end point of the
    last move that a re-render followed. *)
Lemma shownMoves_none (ms : list (Point T * bool)) :
  existsb snd ms = false -> shownMoves ms = [].
Proof.
  destruct ms as [|m ms]; [reflexivity|]. cbn. intros H.
  apply orb_false_iff in H. destruct H as [-> ->]. reflexivity.
Qed.

Lemma setCurrentElement_twice (v w : option (Element T)) (s : State T) :
  setCurrentElement v (setCurrentElement w s) = setCurrentElement v s.
Proof. reflexivity. Qed.

Lemma runQ_moves_shape (ms : list (Point T * bool)) :
  forall (r0 p0 : State T) (el_r el_p : Element T),
  (tool r0 = line \/ tool r0 = circle) -> isDrawing r0 = true ->
  currentElement r0 = Some el_r ->
  tool p0 = tool r0 -> isDrawing p0 = true -> currentElement p0 = Some el_p ->
  runQ {| rendered := r0; pending := p0 |} (moveActions ms)
  = Some {| rendered :=
              if existsb snd ms
              then setCurrentElement
                     (Some (fold_left (fun e q => setEndPoint (px q) (py q) e)
                                      (shownMoves ms) el_p)) p0
              else r0;
            pending :=
              setCurrentElement
                (Some (fold_left (fun e q => setEndPoint (px q) (py q) e)
                                 (map fst ms) el_p)) p0 |}.
Proof.
  induction ms as [|[pt flag] ms IH]; intros r0 p0 el_r el_p Htr Hdr Hcr Htp Hdp Hcp.
  - cbn. do 2 f_equal. destruct p0; cbn in *. now subst.
  - assert (Hmove : handleMoveQ r0 (px pt) (py pt) p0
                    = Ok (setCurrentElement (Some (setEndPoint (px pt) (py pt) el_p)) p0)).
    { unfold handleMoveQ. rewrite Hdr, Hcr, Hcp.
      destruct Htr as [-> | ->]; reflexivity. }
    cbn [moveActions flat_map fst snd app]. fold (moveActions ms).
    destruct flag.
    + cbn [app runQ stepQ dispatch rendered pending]. rewrite Hmove.
      unfold fresh.
      rewrite (IH _ _ (setEndPoint (px pt) (py pt) el_p)
                 (setEndPoint (px pt) (py pt) el_p)); cbn; auto;
        try (rewrite Htp; exact Htr).
      cbn [existsb snd orb shownMoves fst map fold_left].
      rewrite !setCurrentElement_twice.
      destruct (existsb snd ms) eqn:Hex; [reflexivity|].
      now rewrite (shownMoves_none ms Hex).
    + cbn [app runQ stepQ dispatch rendered pending]. rewrite Hmove.
      rewrite (IH _ _ el_r (setEndPoint (px pt) (py pt) el_p)); cbn; auto.
      cbn [existsb snd orb shownMoves fst map fold_left].
      rewrite !setCurrentElement_twice.
      destruct (existsb snd ms) eqn:Hex; reflexivity.
Qed.

(** X2.  A gesture with the line tool: pointer-down, a re-render,
    pointer-moves each followed by a re-render or not, pointer-up, a
    re-render.  It never raises, and it appends to the sequence exactly one
    line, with the generated id and the current colour, from the position
    of the pointer-down to the position of the last pointer-move that a
    re-render had shown when the pointer-up was handled (the position of the
    pointer-down when there was none): [handleEnd] commits the element of
    its closure.  When every move is followed by a re-render this is the
    position of the last move.  The elements that were there are kept in
    place, nothing stays in progress and the selection is untouched.  With
    the zone tool the same holds for a zone. *)
Theorem shape_gesture (s : State T) (x y : T) (id : string)
    (ms : list (Point T * bool)) :
  tool s = line \/ tool s = circle ->
  let stop := last (shownMoves ms) {| px := x; py := y |} in
  (forallb snd ms = true -> shownMoves ms = map fst ms)
  /\ exists k,
       runQ (fresh s)
            (Dispatch (PointerDown x y id) :: Rerender
             :: moveActions ms ++ [Dispatch PointerUp; Rerender]) = Some k
       /\ pending k = rendered k
       /\ elements (rendered k)
          = elements s
            ++ [match tool s with
                | circle => Circle id x y (px stop) (py stop) (color s)
                | _ => Line id x y (px stop) (py stop) (color s)
                end]
       /\ currentElement (rendered k) = None /\ isDrawing (rendered k) = false
       /\ selectedElementIds (rendered k) = selectedElementIds s.
Proof.
  intros Htool stop. split.
  { clear. induction ms as [|[pt flag] ms IH]; [reflexivity|].
    cbn. intros H. apply andb_true_iff in H. destruct H as [-> H].
    cbn. now rewrite IH. }
  set (el0 := match tool s with
              | circle => Circle id x y x y (color s)
              | _ => Line id x y x y (color s)
              end).
  set (s1 := setCurrentElement (Some el0) (setIsDrawing true s)).
  assert (H1 : handleStartQ s x y id s = s1).
  { unfold s1, el0, handleStartQ. destruct Htool as [-> | ->]; reflexivity. }
  cbn [runQ stepQ dispatch fresh rendered pending]. unfold fresh at 1.
  cbn [rendered pending]. rewrite H1. unfold fresh.
  rewrite runQ_app.
  rewrite (@runQ_moves_shape ms s1 s1 el0 el0); try reflexivity;
    [|exact Htool].
  set (shown := fold_left (fun e q => setEndPoint (px q) (py q) e) (shownMoves ms) el0).
  assert (Hcur : currentElement
                   (if existsb snd ms then setCurrentElement (Some shown) s1 else s1)
                 = Some shown).
  { destruct (existsb snd ms) eqn:Hex; [reflexivity|].
    unfold shown. now rewrite (shownMoves_none ms Hex). }
  assert (Htl : tool (if existsb snd ms then setCurrentElement (Some shown) s1 else s1)
                = tool s).
  { destruct (existsb snd ms); reflexivity. }
  assert (Hshown : shown = match tool s with
                           | circle => Circle id x y (px stop) (py stop) (color s)
                           | _ => Line id x y (px stop) (py stop) (color s)
                           end).
  { unfold shown, el0, stop.
    destruct Htool as [-> | ->];
      [rewrite fold_setEndPoint_Line | rewrite fold_setEndPoint_Circle]; reflexivity. }
  cbn [runQ stepQ dispatch rendered pending fresh].
  eexists. split; [reflexivity|]. cbn [rendered pending].
  unfold handleEndQ. rewrite Hcur, Htl, <- Hshown.
  destruct Htool as [Ht | Ht]; rewrite Ht; repeat split.
Qed.

(** While a stroke is being drawn, each pointer-move adds its position to
    the pending path; the render shows the path up to the last move that a
    re-render followed. *)
Lemma runQ_moves_freehand (ms : list (Point T * bool)) :
  forall (r0 p0 : State T) (el_r : Element T) (id : string)
         (pts : list (Point T)) (c : string),
  tool r0 = freehand -> isDrawing r0 = true -> currentElement r0 = Some el_r ->
  tool p0 = freehand -> isDrawing p0 = true ->
  currentElement p0 = Some (Freehand id pts c) ->
  runQ {| rendered := r0; pending := p0 |} (moveActions ms)
  = Some {| rendered :=
              if existsb snd ms
              then setCurrentElement (Some (Freehand id (pts ++ shownMoves ms) c)) p0
              else r0;
            pending :=
              setCurrentElement (Some (Freehand id (pts ++ map fst ms) c)) p0 |}.
Proof.
  induction ms as [|[pt flag] ms IH];
    intros r0 p0 el_r id pts c Htr Hdr Hcr Htp Hdp Hcp.
  - cbn. rewrite app_nil_r. do 2 f_equal. destruct p0; cbn in *. now subst.
  - assert (Hmove : handleMoveQ r0 (px pt) (py pt) p0
                    = Ok (setCurrentElement (Some (Freehand id (pts ++ [pt]) c)) p0)).
    { unfold handleMoveQ. rewrite Htr, Hdr, Hcr, Hcp. cbn. now destruct pt. }
    cbn [moveActions flat_map fst snd app]. fold (moveActions ms).
    destruct flag.
    + cbn [app runQ stepQ dispatch rendered pending]. rewrite Hmove.
      unfold fresh.
      rewrite (IH _ _ (Freehand id (pts ++ [pt]) c) id (pts ++ [pt]) c); cbn; auto.
      cbn [existsb snd orb shownMoves fst map].
      rewrite !setCurrentElement_twice, <- !app_assoc. cbn [app].
      destruct (existsb snd ms) eqn:Hex; [reflexivity|].
      now rewrite (shownMoves_none ms Hex).
    + cbn [app runQ stepQ dispatch rendered pending]. rewrite Hmove.
      rewrite (IH _ _ el_r id (pts ++ [pt]) c); cbn; auto.
      cbn [existsb snd orb shownMoves fst map].
      rewrite !setCurrentElement_twice, <- !app_assoc. cbn [app].
      destruct (existsb snd ms) eqn:Hex; reflexivity.
Qed.

(** X3.  A gesture with the freehand tool: pointer-down, a re-render,
    pointer-moves each followed by a re-render or not, pointer-up, a
    re-render.  It never raises, and it appends to the sequence exactly one
    stroke whose path is the position of the pointer-down followed, in
    order, by the positions of the pointer-moves that a re-render had shown
    when the pointer-up was handled; the moves after the last re-render are
    not in the committed path.  When every move is followed by a re-render
    the path holds every move.  The elements that were there are kept in
    place and nothing stays in progress. *)
Theorem freehand_gesture (s : State T) (x y : T) (id : string)
    (ms : list (Point T * bool)) :
  tool s = freehand ->
  (forallb snd ms = true -> shownMoves ms = map fst ms)
  /\ exists k,
       runQ (fresh s)
            (Dispatch (PointerDown x y id) :: Rerender
             :: moveActions ms ++ [Dispatch PointerUp; Rerender]) = Some k
       /\ pending k = rendered k
       /\ elements (rendered k)
          = elements s
            ++ [Freehand id ({| px := x; py := y |} :: shownMoves ms) (color s)]
       /\ currentElement (rendered k) = None /\ isDrawing (rendered k) = false
       /\ selectedElementIds (rendered k) = selectedElementIds s.
Proof.
  intros Htool. split.
  { clear. induction ms as [|[pt flag] ms IH]; [reflexivity|].
    cbn. intros H. apply andb_true_iff in H. destruct H as [-> H].
    cbn. now rewrite IH. }
  set (el0 := Freehand id [{| px := x; py := y |}] (color s)).
  set (s1 := setCurrentElement (Some el0) (setIsDrawing true s)).
  assert (H1 : handleStartQ s x y id s = s1).
  { unfold s1, el0, handleStartQ. now rewrite Htool. }
  cbn [runQ stepQ dispatch fresh rendered pending]. unfold fresh at 1.
  cbn [rendered pending]. rewrite H1. unfold fresh.
  rewrite runQ_app.
  rewrite (@runQ_moves_freehand ms s1 s1 el0 id [{| px := x; py := y |}] (color s));
    try reflexivity; try exact Htool.
  set (shown := Freehand id ([{| px := x; py := y |}] ++ shownMoves ms) (color s)).
  assert (Hcur : currentElement
                   (if existsb snd ms then setCurrentElement (Some shown) s1 else s1)
                 = Some shown).
  { destruct (existsb snd ms) eqn:Hex; [reflexivity|].
    unfold shown. now rewrite (shownMoves_none ms Hex). }
  assert (Htl : tool (if existsb snd ms then setCurrentElement (Some shown) s1 else s1)
                = tool s).
  { destruct (existsb snd ms); reflexivity. }
  cbn [runQ stepQ dispatch rendered pending fresh].
  eexists. split; [reflexivity|]. cbn [rendered pending].
  unfold handleEndQ. rewrite Hcur, Htl, Htool. repeat split.
Qed.

(** X4.  Undo takes back the last commit: after a marker has been placed,
    or after a pointer-up has committed the element in progress, undo leaves
    the sequence as it was before; on an empty sequence undo leaves it
    empty.  Undo changes nothing but the sequence. *)
Theorem undo_reverts_commit (s : State T) (x y : T) (id : string) (el : Element T) :
  (tool s = player ->
   elements (handleUndo (handleStart s x y id)) = elements s)
  /\ (currentElement s = Some el ->
      elements (handleUndo (handleEnd s)) = elements s)
  /\ (elements s = [] -> elements (handleUndo s) = [])
  /\ handleUndo s = setElements (fun _ => elements (handleUndo s)) s.
Proof.
  repeat split.
  - intros Htool. unfold handleStart. rewrite Htool. cbn. apply removelast_last.
  - intros Hcur. unfold handleEnd. rewrite Hcur.
    destruct (tool s); cbn; try apply removelast_last;
      destruct (selectionBox s); cbn; apply removelast_last.
  - intros Hnil. cbn. now rewrite Hnil.
Qed.

(** X5.  With the interact tool a pointer-move never throws and never adds,
    removes or reorders elements: the ids and the colours of the sequence
    and the selection are what they were, whether the move hovers, grows
    the selection rectangle or drags the selection. *)
Theorem interact_move_keeps_sequence (s : State T) (x y : T) :
  tool s = interact ->
  exists s',
    handleMove s x y = Some s'
    /\ map el_id (elements s') = map el_id (elements s)
    /\ map el_color (elements s') = map el_color (elements s)
    /\ map isPlayer (elements s') = map isPlayer (elements s)
    /\ selectedElementIds s' = selectedElementIds s
    /\ tool s' = interact.
Proof.
  intros Htool. unfold handleMove. rewrite Htool. cbn.
  assert (Hdrag : forall ids dx dy (l : list (Element T)),
             map el_id (map (dragElement ids dx dy) l) = map el_id l
             /\ map el_color (map (dragElement ids dx dy) l) = map el_color l
             /\ map isPlayer (map (dragElement ids dx dy) l) = map isPlayer l).
  { intros ids dx dy l. rewrite !map_map. repeat split; apply map_ext; intros e;
      unfold dragElement; destruct (includes ids (el_id e)); destruct e; reflexivity. }
  destruct (isDrawing s).
  - destruct (selectionBox s) as [box|]; [eexists; split; [reflexivity|]; cbn; auto|].
    destruct (selectedElementIds s) as [|i ids] eqn:Hsel;
      [eexists; split; [reflexivity|]; cbn; auto|].
    destruct (dragLastPos s) as [lastp|];
      [|eexists; split; [reflexivity|]; cbn; auto].
    eexists. split; [reflexivity|]. cbn.
    destruct (Hdrag (i :: ids) (x - px lastp) (y - py lastp) (elements s))
      as (H1 & H2 & H3).
    auto.
  - destruct (currentElement s); eexists; (split; [reflexivity|]); cbn; auto.
Qed.

End Gestures.

(** ** What holds in every reachable state *)

Section Reachable.

Context {T : Type} {num : Number T}.
Local Open Scope js_scope.

Lemma run_invariant (P : State T -> Prop) :
  (forall s e s', P s -> step s e = Some s' -> P s') ->
  forall es s s', P s -> run s es = Some s' -> P s'.
Proof.
  intros Hstep. induction es as [|e es IH]; intros s s' Hs Hrun; cbn in Hrun.
  - now injection Hrun as <-.
  - destruct (step s e) as [s1|] eqn:He; [|discriminate].
    exact (IH s1 s' (Hstep s e s1 Hs He) Hrun).
Qed.

Lemma elementOk_dragElement (ids : list string) (dx dy : T) (el : Element T) :
  elementOk el -> elementOk (dragElement ids dx dy el).
Proof.
  unfold dragElement, elementOk. destruct (includes ids (el_id el)); cbn; [|tauto].
  destruct el; cbn; try tauto.
  intros [Hc Hp]. split; [exact Hc|]. destruct points; [contradiction | discriminate].
Qed.

Lemma Forall_removelast {A} (P : A -> Prop) (l : list A) :
  Forall P l -> Forall P (removelast l).
Proof.
  induction 1 as [|a l Ha Hl IH]; [constructor|].
  cbn. destruct l; [constructor | constructor; assumption].
Qed.

Lemma elementOk_filter (f : Element T -> bool) (l : list (Element T)) :
  Forall elementOk l -> Forall elementOk (filter f l).
Proof.
  rewrite !Forall_forall. intros H el Hin. apply filter_In in Hin. apply H, Hin.
Qed.

Lemma elementOk_snoc (l : list (Element T)) (el : Element T) :
  Forall elementOk l -> elementOk el -> Forall elementOk (l ++ [el]).
Proof.
  intros Hl Hel. apply Forall_app. split; [exact Hl | now constructor].
Qed.

Lemma elementOk_setEndPoint (x y : T) (el : Element T) :
  elementOk el -> elementOk (setEndPoint x y el).
Proof. unfold elementOk. destruct el; cbn; tauto. Qed.

Lemma isPlayer_setEndPoint (x y : T) (el : Element T) :
  isPlayer (setEndPoint x y el) = isPlayer el.
Proof. destruct el; reflexivity. Qed.

Ltac wf_split :=
  unfold wellFormed; cbn -[palette In elementOk isPlayer removeById];
  split; [|split].

Lemma wellFormed_handleStart (s : State T) (x y : T) (id : string) :
  wellFormed s -> wellFormed (handleStart s x y id).
Proof.
  intros (Hcol & Hels & Hcur). unfold handleStart. destruct (tool s).
  - wf_split; auto. apply elementOk_snoc; [exact Hels|]. split; [exact Hcol | reflexivity].
  - wf_split; auto. intros el [= <-]. repeat split. exact Hcol.
  - wf_split; auto. intros el [= <-]. repeat split. exact Hcol.
  - wf_split; auto. intros el [= <-]. repeat split; [exact Hcol | discriminate].
  - destruct (getElementAtPosition (elements s) x y) as [hit|];
      [destruct (includes (selectedElementIds s) (el_id hit))|];
      wf_split; auto.
  - destruct (getElementAtPosition (elements s) x y) as [hit|]; wf_split; auto.
    now apply elementOk_filter.
Qed.

Lemma wellFormed_handleMove (s s' : State T) (x y : T) :
  wellFormed s -> handleMove s x y = Some s' -> wellFormed s'.
Proof.
  intros (Hcol & Hels & Hcur) Hstep. unfold handleMove in Hstep.
  destruct (negb (isDrawing s) && negb (Tool_eqb (tool s) interact));
    [injection Hstep as <-; wf_split; auto|].
  destruct (Tool_eqb (tool s) eraser && isDrawing s).
  { destruct (getElementAtPosition (elements s) x y) as [hit|];
      injection Hstep as <-; wf_split; auto.
    now apply elementOk_filter. }
  destruct (Tool_eqb (tool s) interact && isDrawing s).
  { destruct (selectionBox s) as [box|];
      [injection Hstep as <-; wf_split; auto|].
    destruct (selectedElementIds s) as [|i ids];
      [injection Hstep as <-; wf_split; auto|].
    destruct (dragLastPos s) as [lastp|];
      injection Hstep as <-; wf_split; auto.
    apply Forall_forall. intros el Hin. apply in_map_iff in Hin.
    destruct Hin as (el0 & <- & Hin0). apply elementOk_dragElement.
    rewrite Forall_forall in Hels. auto. }
  destruct (currentElement s) as [prev|] eqn:Hprev;
    [|injection Hstep as <-; wf_split; auto; rewrite Hprev; discriminate].
  destruct (Hcur prev eq_refl) as [Hok Hnp].
  destruct (Tool_eqb (tool s) freehand).
  - destruct prev as [| | |id pts c]; cbn in Hstep; try discriminate.
    injection Hstep as <-. wf_split; auto.
    intros el [= <-]. destruct Hok as [Hc _]. repeat split; [exact Hc|].
    intros Happ. apply app_eq_nil in Happ. destruct Happ as [_ Hn]. discriminate.
  - injection Hstep as <-. wf_split; auto.
    intros el [= <-]. split; [now apply elementOk_setEndPoint|].
    now rewrite isPlayer_setEndPoint.
Qed.

Lemma wellFormed_handleEnd (s : State T) : wellFormed s -> wellFormed (handleEnd s).
Proof.
  intros (Hcol & Hels & Hcur). unfold handleEnd.
  destruct (currentElement s) as [el|] eqn:Hel.
  - destruct (Hcur el eq_refl) as [Hok _].
    destruct (tool s); try (wf_split; auto; [now apply elementOk_snoc | discriminate]).
    destruct (selectionBox s);
      (wf_split; auto; [now apply elementOk_snoc | discriminate]).
  - destruct (tool s); try (wf_split; auto; rewrite Hel; discriminate).
    destruct (selectionBox s); wf_split; auto; rewrite Hel; discriminate.
Qed.

Lemma wellFormed_step (s s' : State T) (e : Event T) :
  wellFormed s -> step s e = Some s' -> wellFormed s'.
Proof.
  intros Hwf Hstep. destruct e; cbn -[palette] in Hstep.
  - injection Hstep as <-. now apply wellFormed_handleStart.
  - eapply wellFormed_handleMove; eassumption.
  - injection Hstep as <-. now apply wellFormed_handleEnd.
  - injection Hstep as <-. exact Hwf.
  - injection Hstep as <-. exact Hwf.
  - destruct (existsb (String.eqb c) palette) eqn:Hpal; [|discriminate].
    injection Hstep as <-. destruct Hwf as (Hcol & Hels & Hcur).
    wf_split; auto.
    apply existsb_exists in Hpal. destruct Hpal as (c' & Hin & Heq).
    apply String.eqb_eq in Heq. now subst.
  - injection Hstep as <-. destruct Hwf as (Hcol & Hels & Hcur).
    wf_split; auto. now apply Forall_removelast.
  - injection Hstep as <-. exact Hwf.
  - destruct (showClearConfirm s); [|discriminate]. injection Hstep as <-.
    destruct Hwf as (Hcol & Hels & Hcur). wf_split; auto. discriminate.
  - destruct (showClearConfirm s); [|discriminate]. injection Hstep as <-.
    exact Hwf.
  - injection Hstep as <-. exact Hwf.
Qed.

(** X6.  In every state the component can reach, the current colour and the
    colour of every element are colours of the palette, every marker has
    radius 8, every freehand stroke has at least one point, and the element
    in progress, if any, is not a marker. *)
Theorem reachable_wellFormed (s : State T) : reachable s -> wellFormed s.
Proof.
  intros [es Hes].
  refine (@run_invariant wellFormed
            (fun s0 e s1 H0 H1 => @wellFormed_step s0 s1 e H0 H1) es _ _ _ Hes).
  split; [left; reflexivity|]. split; [constructor | discriminate].
Qed.

Lemma anchorsExclusive_step (s s' : State T) (e : Event T) :
  anchorsExclusive s -> step s e = Some s' -> anchorsExclusive s'.
Proof.
  unfold anchorsExclusive. intros Hex Hstep. destruct e; cbn -[palette] in Hstep;
    try (injection Hstep as <-; exact Hex).
  - injection Hstep as <-. unfold handleStart. destruct (tool s); try exact Hex.
    + destruct (getElementAtPosition (elements s) x y) as [hit|]; cbn; auto.
    + destruct (getElementAtPosition (elements s) x y) as [hit|]; exact Hex.
  - unfold handleMove in Hstep.
    destruct (negb (isDrawing s) && negb (Tool_eqb (tool s) interact));
      [injection Hstep as <-; exact Hex|].
    destruct (Tool_eqb (tool s) eraser && isDrawing s).
    { destruct (getElementAtPosition (elements s) x y);
        injection Hstep as <-; exact Hex. }
    destruct (Tool_eqb (tool s) interact && isDrawing s).
    { destruct (selectionBox s) as [box|] eqn:Hbox.
      - injection Hstep as <-. cbn. left.
        destruct Hex as [H|H]; [exact H | discriminate].
      - destruct (selectedElementIds s); [injection Hstep as <-; cbn; auto|].
        destruct (dragLastPos s); injection Hstep as <-; cbn; auto. }
    destruct (currentElement s) as [prev|]; [|injection Hstep as <-; exact Hex].
    destruct (Tool_eqb (tool s) freehand).
    + destruct (appendPoint x y prev); [|discriminate].
      injection Hstep as <-. exact Hex.
    + injection Hstep as <-. exact Hex.
  - injection Hstep as <-. unfold handleEnd.
    destruct (currentElement s); destruct (tool s); cbn; try exact Hex;
      destruct (selectionBox s); cbn; auto.
  - destruct (existsb (String.eqb c) palette); [|discriminate].
    injection Hstep as <-. exact Hex.
  - destruct (showClearConfirm s); [|discriminate]. injection Hstep as <-. exact Hex.
  - destruct (showClearConfirm s); [|discriminate]. injection Hstep as <-. exact Hex.
Qed.

(** X7.  In every reachable state a drag anchor and a selection rectangle
    do not coexist: a pointer-move with the interact tool either grows the
    rectangle or drags the selection, and the choice between the two never
    hides a pending drag. *)
Theorem reachable_anchorsExclusive (s : State T) :
  reachable s -> anchorsExclusive s.
Proof.
  intros [es Hes].
  refine (@run_invariant anchorsExclusive
            (fun s0 e s1 H0 H1 => @anchorsExclusive_step s0 s1 e H0 H1) es _ _ _ Hes).
  now left.
Qed.

(** Filtering the sequence keeps its ids pairwise distinct. *)
Lemma ids_distinct_filter (keep : Element T -> bool) (els : list (Element T)) :
  NoDup (map el_id els) -> NoDup (map el_id (filter keep els)).
Proof.
  induction els as [|a els IH]; cbn; [auto|].
  intros Hnd. inversion Hnd as [|? ? Hnin Hnd']; subst.
  destruct (keep a); cbn; [|auto]. constructor; [|auto].
  intros Hin. apply Hnin. apply in_map_iff in Hin. destruct Hin as (b & Hb & Hin).
  apply filter_In in Hin. apply in_map_iff. exists b. tauto.
Qed.

Lemma removeById_length (hit : Element T) (l : list (Element T)) :
  NoDup (map el_id l) -> In hit l -> S (List.length (removeById hit l)) = List.length l.
Proof.
  unfold removeById. induction l as [|a l IH]; cbn; [contradiction|].
  intros Hnd Hin. inversion Hnd as [|? ? Hnin Hnd']; subst.
  destruct (String.eqb (el_id a) (el_id hit)) eqn:Heq; cbn.
  - f_equal. apply String.eqb_eq in Heq.
    assert (Hall : filter (fun el => negb (String.eqb (el_id el) (el_id hit))) l = l).
    { apply forallb_filter_id. apply forallb_forall. intros b Hb.
      apply negb_true_iff, String.eqb_neq. intros Hbid. apply Hnin.
      rewrite Heq, <- Hbid. now apply in_map. }
    now rewrite Hall.
  - f_equal. apply IH; [exact Hnd'|].
    destruct Hin as [->|Hin]; [|exact Hin].
    rewrite String.eqb_refl in Heq. discriminate.
Qed.

(** X8.  When the ids of the sequence are pairwise distinct, an eraser
    pointer-down that hits an element removes that element and no other:
    the sequence is shorter by exactly one, an element is left exactly when
    it was there and is not the hit one, and the ids stay pairwise
    distinct. *)
Theorem eraser_removes_exactly_one (s : State T) (x y : T) (id : string)
    (hit : Element T) :
  tool s = eraser -> NoDup (map el_id (elements s)) ->
  getElementAtPosition (elements s) x y = Some hit ->
  let s' := handleStart s x y id in
  S (List.length (elements s')) = List.length (elements s)
  /\ (forall el, In el (elements s') <-> In el (elements s) /\ el <> hit)
  /\ NoDup (map el_id (elements s')).
Proof.
  intros Htool Hnd Hhit s'. subst s'. unfold handleStart. rewrite Htool, Hhit. cbn.
  pose proof (getElementAtPosition_In _ _ _ Hhit) as Hin.
  split; [now apply removeById_length|]. split.
  - intros el. unfold removeById. rewrite filter_In. split.
    + intros [Hel Hne]. split; [exact Hel|]. intros ->.
      rewrite String.eqb_refl in Hne. discriminate.
    + intros [Hel Hne]. split; [exact Hel|].
      apply negb_true_iff, String.eqb_neq. intros Hid. apply Hne.
      clear - Hnd Hel Hin Hid. induction (elements s) as [|a l IH]; [contradiction|].
      cbn in Hnd. inversion Hnd as [|? ? Hnin Hnd']; subst.
      destruct Hel as [<-|Hel], Hin as [<-|Hin]; auto.
      * exfalso. apply Hnin. rewrite Hid. now apply in_map.
      * exfalso. apply Hnin. rewrite <- Hid. now apply in_map.
  - now apply ids_distinct_filter.
Qed.

End Reachable.

(** * Further properties, with exact arithmetic *)

(** ** Hit testing *)

Lemma onSegment_sym (s e q : Point R) : onSegment s e q -> onSegment e s q.
Proof.
  intros (t & Ht & Hx & Hy). exists (1 - t). split; [lra|].
  rewrite Hx, Hy. split; ring.
Qed.

Lemma isSegmentDistance_unique (p s e : Point R) (d1 d2 : R) :
  isSegmentDistance p s e d1 -> isSegmentDistance p s e d2 -> d1 = d2.
Proof.
  intros [(q1 & Hq1 & <-) Hmin1] [(q2 & Hq2 & <-) Hmin2].
  apply Rle_antisym; auto.
Qed.

(** X9.  The distance to a segment does not depend on the order of its end
    points, and neither does the hit test of a line: a line drawn from A to B
    is hit at the same points as a line drawn from B to A. *)
Theorem pointToLineDistance_sym (p s e : Point R) (id id' c c' : string) :
  value (pointToLineDistance p s e) = value (pointToLineDistance p e s)
  /\ isHit (Line id (px s) (py s) (px e) (py e) c) (px p) (py p)
     = isHit (Line id' (px e) (py e) (px s) (py s) c') (px p) (py p).
Proof.
  assert (Hsym : value (pointToLineDistance p s e)
                 = value (pointToLineDistance p e s)).
  { apply (@isSegmentDistance_unique p s e).
    - apply pointToLineDistance_isSegmentDistance.
    - destruct (pointToLineDistance_isSegmentDistance p e s) as [(q & Hq & Hd) Hmin].
      split.
      + exists q. split; [now apply onSegment_sym | exact Hd].
      + intros q' Hq'. apply Hmin. now apply onSegment_sym. }
  split; [exact Hsym|].
  cbn [isHit]. destruct p, s, e. cbn [px py] in *. now rewrite Hsym.
Qed.

Lemma distance_self (p : Point R) : distance p p = 0.
Proof.
  unfold distance. cbn. apply sqrt_lem_1; [|lra|ring].
  replace ((px p - px p) * ((px p - px p) * 1)
           + (py p - py p) * ((py p - py p) * 1)) with 0 by ring. lra.
Qed.

Lemma distance_nonneg (p q : Point R) : 0 <= distance p q.
Proof. unfold distance. cbn. apply sqrt_pos. Qed.

Lemma distance_sym (p q : Point R) : distance p q = distance q p.
Proof. unfold distance. cbn. f_equal. ring. Qed.

Lemma isHit_drawnThrough_marker (id : string) (x y : R) (c : string) :
  isHit (Player id x y 8 c) x y = true.
Proof. cbn [isHit]. apply Rleb_le. rewrite distance_self. cbn. lra. Qed.

(** X10.  Every element is hit at the points it is drawn through: a marker
    at its centre (its radius being at least -5, as the radius 8 of every
    marker the handlers create is), a zone at its start point and at its end
    point, a line at every point of its segment, a stroke at each of its
    samples. *)
Theorem isHit_drawnThrough (el : Element R) (q : Point R) :
  drawnThrough el q ->
  match el with Player _ _ _ radius _ => -5 <= radius | _ => True end ->
  isHit el (px q) (py q) = true.
Proof.
  destruct el as [id x y r c|id sx sy ex ey c|id sx sy ex ey c|id pts c];
    cbn [drawnThrough isHit]; intros Hq Hr.
  - subst q. cbn [px py]. apply Rleb_le.
    rewrite distance_self. cbn. lra.
  - apply Rleb_le.
    destruct Hq as [-> | ->]; cbn [px py].
    + rewrite distance_self.
      eapply Rle_trans; [|apply Rmax_r]. cbn. lra.
    + rewrite distance_sym. apply Rmax_l.
  - apply Rltb_lt.
    destruct (pointToLineDistance_isSegmentDistance
                {| px := px q; py := py q |} {| px := sx; py := sy |}
                {| px := ex; py := ey |}) as [_ Hmin].
    assert (Hle := Hmin q Hq).
    replace (distance {| px := px q; py := py q |} q) with 0 in Hle
      by (destruct q; symmetry; apply distance_self).
    eapply Rle_lt_trans; [exact Hle|]. cbn. lra.
  - apply existsb_exists. exists q. split; [exact Hq|].
    apply Rltb_lt.
    replace (distance {| px := px q; py := py q |} q) with 0
      by (destruct q; symmetry; apply distance_self).
    cbn. lra.
Qed.

(** X11.  A zone or a line made by a click without a move (start and end
    point equal) is hit like a dot of radius 10: the zone at the points at
    distance at most 10 from it, the line at the points at distance less
    than 10. *)
Theorem isHit_degenerate_shape (id c : string) (sx sy x y : R) :
  (isHit (Circle id sx sy sx sy c) x y = true
   <-> distance {| px := x; py := y |} {| px := sx; py := sy |} <= 10)
  /\ (isHit (Line id sx sy sx sy c) x y = true
      <-> distance {| px := x; py := y |} {| px := sx; py := sy |} < 10).
Proof.
  split.
  - cbn [isHit]. rewrite distance_self.
    change (Math_max 0 (ofZ 10)) with (Rmax 0 10).
    rewrite Rmax_right by lra. apply Rleb_le.
  - cbn [isHit].
    assert (Hd : value (pointToLineDistance {| px := x; py := y |}
                          {| px := sx; py := sy |} {| px := sx; py := sy |})
                 = distance {| px := x; py := y |} {| px := sx; py := sy |}).
    { apply (@isSegmentDistance_unique {| px := x; py := y |}
               {| px := sx; py := sy |} {| px := sx; py := sy |}).
      - apply pointToLineDistance_isSegmentDistance.
      - split.
        + exists {| px := sx; py := sy |}. split; [|reflexivity].
          exists 0. cbn. split; [lra|]. split; ring.
        + intros q (t & _ & Hx & Hy). right. destruct q as [qx qy].
          cbn [px py] in Hx, Hy.
          replace qx with sx by (rewrite Hx; ring).
          replace qy with sy by (rewrite Hy; ring).
          reflexivity. }
    rewrite Hd. apply Rltb_lt.
Qed.

(** ** Dragging *)

Lemma distance_translate (p q : Point R) (dx dy : R) :
  distance {| px := px p + dx; py := py p + dy |}
           {| px := px q + dx; py := py q + dy |}
  = distance p q.
Proof. unfold distance. cbn. f_equal. ring. Qed.

Lemma onSegment_translate (s e q : Point R) (dx dy : R) :
  onSegment s e q ->
  onSegment {| px := px s + dx; py := py s + dy |}
            {| px := px e + dx; py := py e + dy |}
            {| px := px q + dx; py := py q + dy |}.
Proof.
  intros (t & Ht & Hx & Hy). exists t. cbn. split; [exact Ht|].
  rewrite Hx, Hy. split; ring.
Qed.

Lemma pointToLineDistance_translate (p s e : Point R) (dx dy : R) :
  value (pointToLineDistance {| px := px p + dx; py := py p + dy |}
                             {| px := px s + dx; py := py s + dy |}
                             {| px := px e + dx; py := py e + dy |})
  = value (pointToLineDistance p s e).
Proof.
  set (tr := fun a : Point R => {| px := px a + dx; py := py a + dy |}).
  set (back := fun a : Point R => {| px := px a + - dx; py := py a + - dy |}).
  assert (Htb : forall a, tr (back a) = a).
  { intros [ax ay]. unfold tr, back. cbn. f_equal; ring. }
  change (value (pointToLineDistance (tr p) (tr s) (tr e))
          = value (pointToLineDistance p s e)).
  apply (@isSegmentDistance_unique (tr p) (tr s) (tr e)).
  - apply pointToLineDistance_isSegmentDistance.
  - destruct (pointToLineDistance_isSegmentDistance p s e) as [(q & Hq & Hd) Hmin].
    split.
    + exists (tr q). split; [now apply onSegment_translate|].
      unfold tr. now rewrite distance_translate.
    + intros q' Hq'.
      assert (Hb : onSegment s e (back q')).
      { destruct Hq' as (t & Ht & Hx & Hy). exists t. unfold tr, back in *.
        cbn in *. split; [exact Ht|]. rewrite Hx, Hy. split; ring. }
      specialize (Hmin _ Hb).
      rewrite <- (Htb q'). unfold tr. now rewrite distance_translate.
Qed.

(** X12.  Dragging moves the hit region of an element with it: a selected
    element dragged by [(dx, dy)] is hit at [(x + dx, y + dy)] exactly when
    it was hit at [(x, y)] before. *)
Theorem isHit_dragElement (ids : list string) (dx dy x y : R) (el : Element R) :
  In (el_id el) ids ->
  isHit (dragElement ids dx dy el) (x + dx) (y + dy) = isHit el x y.
Proof.
  intros Hin. apply includes_In in Hin. unfold dragElement. rewrite Hin. cbn [negb].
  destruct el as [id ex ey r c|id sx sy ex ey c|id sx sy ex ey c|id pts c];
    cbn [isHit].
  - now rewrite (distance_translate {| px := x; py := y |} {| px := ex; py := ey |}).
  - rewrite (distance_translate {| px := x; py := y |} {| px := sx; py := sy |}).
    now rewrite (distance_translate {| px := sx; py := sy |} {| px := ex; py := ey |}).
  - now rewrite (pointToLineDistance_translate {| px := x; py := y |}
                   {| px := sx; py := sy |} {| px := ex; py := ey |}).
  - clear Hin. induction pts as [|p pts IH]; cbn [map existsb]; [reflexivity|].
    rewrite IH. f_equal.
    now rewrite (distance_translate {| px := x; py := y |} p).
Qed.

Lemma dragElement_compose (ids : list string) (dx1 dy1 dx2 dy2 : R) (el : Element R) :
  dragElement ids dx2 dy2 (dragElement ids dx1 dy1 el)
  = dragElement ids (dx1 + dx2) (dy1 + dy2) el.
Proof.
  unfold dragElement at 2 3.
  destruct (negb (includes ids (el_id el))) eqn:Hsel.
  - unfold dragElement. now rewrite Hsel.
  - unfold dragElement.
    destruct el as [id x y r c|id sx sy ex ey c|id sx sy ex ey c|id pts c];
      cbn [el_id] in *; rewrite Hsel; cbn.
    + f_equal; ring.
    + f_equal; ring.
    + f_equal; ring.
    + f_equal. rewrite map_map. apply map_ext. intros [a b]. cbn. f_equal; ring.
Qed.

(** X13.  With exact arithmetic, two pointer-moves of a drag of a selection
    that is not empty.  When React re-renders between them, the second
    handler measures from the position of the first, and the pending state
    is that of a single pointer-move to the second position: the drag does
    not depend on the path of the pointer.  When React does not re-render
    between them, both handlers measure from the anchor of the same render,
    and the selected elements end displaced by the sum of the two
    displacements from that anchor, [(x1 - lx) + (x2 - lx)], instead of
    [x2 - lx]: they run ahead of the pointer by [x1 - lx]. *)
Theorem group_drag_two_moves (s : State R) (lastp : Point R) (x1 y1 x2 y2 : R) :
  tool s = interact -> isDrawing s = true -> selectionBox s = None ->
  dragLastPos s = Some lastp -> selectedElementIds s <> [] ->
  let dragged dx dy :=
    setDragLastPos (Some {| px := x2; py := y2 |})
      (setElements (map (dragElement (selectedElementIds s) dx dy)) s) in
  runQ (fresh s) [Dispatch (PointerMove x2 y2)]
  = Some {| rendered := s; pending := dragged (x2 - px lastp) (y2 - py lastp) |}
  /\ (exists r,
        runQ (fresh s)
             [Dispatch (PointerMove x1 y1); Rerender; Dispatch (PointerMove x2 y2)]
        = Some {| rendered := r; pending := dragged (x2 - px lastp) (y2 - py lastp) |})
  /\ runQ (fresh s) [Dispatch (PointerMove x1 y1); Dispatch (PointerMove x2 y2)]
     = Some {| rendered := s;
               pending := dragged ((x1 - px lastp) + (x2 - px lastp))
                                  ((y1 - py lastp) + (y2 - py lastp)) |}.
Proof.
  intros Htool Hdown Hbox Hlast Hsel dragged.
  destruct (selectedElementIds s) as [|i ids] eqn:Hids; [contradiction|].
  assert (Hmove : forall x y p,
            handleMoveQ s x y p
            = Ok (setDragLastPos (Some {| px := x; py := y |})
                    (setElements
                       (map (dragElement (i :: ids) (x - px lastp) (y - py lastp))) p))).
  { intros x y p. unfold handleMoveQ.
    rewrite Htool, Hdown, Hbox, Hlast, Hids. reflexivity. }
  split; [|split].
  - cbn [runQ stepQ dispatch fresh rendered pending]. rewrite Hmove. reflexivity.
  - cbn [runQ stepQ dispatch fresh rendered pending]. rewrite Hmove.
    cbn [rendered pending]. unfold fresh. cbn [rendered pending].
    eexists. unfold handleMoveQ. cbn. rewrite Htool, Hdown, Hbox, Hids. cbn.
    do 2 f_equal. unfold dragged, setDragLastPos, setElements. cbn. f_equal.
    rewrite map_map. apply map_ext. intros el.
    rewrite dragElement_compose. f_equal; ring.
  - cbn [runQ stepQ dispatch fresh rendered pending]. rewrite Hmove.
    cbn [rendered pending]. rewrite Hmove.
    do 2 f_equal. unfold dragged, setDragLastPos, setElements. cbn. f_equal.
    rewrite map_map. apply map_ext. intros el.
    now rewrite dragElement_compose.
Qed.

(** ** Selecting with a rectangle *)





(** X15.  A marker that has just been placed is the element on top at its
    own position: the hit test there returns it, whatever lies under it. *)
Theorem placed_marker_is_topmost (s : State R) (x y : R) (id : string) :
  tool s = player ->
  let s' := handleStart s x y id in
  getElementAtPosition (elements s') x y = Some (Player id x y 8 (color s)).
Proof.
  intros Htool s'. subst s'. unfold handleStart. rewrite Htool. cbn.
  unfold getElementAtPosition. rewrite length_app. cbn [List.length].
  rewrite Nat.add_1_r. cbn [scanFrom].
  rewrite nth_error_app2 by lia. rewrite Nat.sub_diag. cbn [nth_error].
  replace (isHit (Player id x y 8 (color s)) x y) with true; [reflexivity|].
  symmetry. apply (@isHit_drawnThrough_marker id x y (color s)).
Qed.

(** ** Rendering *)

Lemma events_bind {A B} (c : Traced R A) (k : A -> Traced R B) :
  events (bind c k) = events c ++ events (k (value c)).
Proof. unfold bind, events, value. destruct c as [l a]. cbn. now destruct (k a). Qed.

Lemma safeEvent_split (l : list (event R)) :
  Forall safeEvent l
  <-> Forall (fun d => d <> 0) (denominators l)
      /\ Forall (fun op => ~ raises op) (canvas_ops l).
Proof.
  unfold denominators, canvas_ops.
  induction l as [|e l IH]; cbn [flat_map].
  - split; [split; constructor | constructor].
  - split.
    + intros H. inversion H as [|? ? He Hl]; subst. apply IH in Hl.
      destruct Hl as [Hd Ho]. destruct e; cbn; split; auto.
    + intros [Hd Ho]. destruct e; cbn in *.
      * inversion Hd; subst. constructor; [assumption | apply IH; auto].
      * inversion Ho; subst. constructor; [assumption | apply IH; auto].
Qed.

Lemma forEach_safe {A} (l : list A) (f : A -> Traced R unit) :
  (forall a, In a l -> Forall safeEvent (events (f a))) ->
  Forall safeEvent (events (forEach l f)).
Proof.
  induction l as [|a l IH]; intros Hf; cbn [forEach].
  - constructor.
  - rewrite events_bind. apply Forall_app. split.
    + apply Hf. now left.
    + apply IH. intros b Hb. apply Hf. now right.
Qed.

Ltac safe_events :=
  repeat (constructor;
          [first [exact (fun H : False => H)
                 | cbn; lra
                 | cbn; apply Rle_not_lt;
                   first [ eapply Rle_trans; [|apply Rmax_l]; lra
                         | eapply Rle_trans; [|apply Rmax_r]; lra
                         | apply Rplus_le_le_0_compat; [|lra];
                           eapply Rle_trans; [|apply Rmax_l]; lra ] ] |]);
  try constructor.

Lemma drawElement_safe (atan2 : R -> R -> R) (cos sin : R -> R)
    (selected : list string) (el : Element R) :
  Forall safeEvent (events (drawElement atan2 cos sin selected el)).
Proof.
  destruct el as [id x y r c|id sx sy ex ey c|id sx sy ex ey c|id pts c];
    unfold drawElement.
  - cbn -[distance]. destruct (includes selected id); cbn -[distance]; safe_events.
  - cbn -[distance]. destruct (includes selected id); cbn -[distance]; safe_events.
  - cbn -[distance]. destruct (includes selected id); cbn -[distance]; safe_events.
  - destruct pts as [|p0 [|p1 rest]].
    + cbn. safe_events.
    + cbn. safe_events.
    + cbv beta iota. repeat (rewrite events_bind; cbv beta).
      repeat (apply Forall_app; split);
        try solve [cbn; safe_events].
      * apply forEach_safe. intros p _. cbn. safe_events.
      * destruct (includes selected id); cbn; safe_events.
Qed.

(** X16.  Rendering never divides by zero and never calls [arc] with a
    negative radius, whatever the elements, the element in progress, the
    selection, the selection rectangle, the view mode and the size of the
    canvas: a marker is drawn with radius at least 1 and a zone with radius
    at least 10, and the field is drawn only when there is room for it. *)
Theorem render_safe (atan2 : R -> R -> R) (cos sin : R -> R) (viewMode : ViewMode)
    (elements : list (Element R)) (currentElement : option (Element R))
    (selected : list string) (selectionBox : option (SelectionBox R))
    (width height : R) :
  let trace := events (render atan2 cos sin viewMode elements currentElement
                              selected selectionBox width height) in
  Forall (fun d => d <> 0) (denominators trace)
  /\ Forall (fun op => ~ raises op) (canvas_ops trace).
Proof.
  intros trace. apply safeEvent_split. subst trace. unfold render.
  rewrite !events_bind. cbn [ctx events value fst snd app].
  apply Forall_cons; [exact (fun H : False => H)|].
  apply Forall_app. split.
  { apply safeEvent_split, drawField_safe. }
  apply Forall_app. split.
  { apply forEach_safe. intros el _. apply drawElement_safe. }
  apply Forall_app. split.
  { destruct currentElement as [el|]; [apply drawElement_safe | constructor]. }
  destruct selectionBox as [box|]; cbn; safe_events.
Qed.

Ltac inside_ops :=
  repeat (constructor;
          [first [exact I | cbn; lra | cbn; repeat split; lra] |]);
  try constructor.

(** X17.  With exact arithmetic, on a canvas with room for the field, in
    either view mode, the boundary rectangle is the one rectangle stroked;
    it lies within the canvas less the padding of 30 on every side, it is
    centred on both axes, its sides are as 110 to 60 in full-field mode and
    as 60 to 65 in half-field mode, and every line end point and every
    circle of the field markings lies within it.  (In binary64 the two
    margins of an axis and the position of a marking on the boundary can
    differ from these by a rounding error.) *)
Theorem drawField_layout (viewMode : ViewMode) (width height : R) :
  30 * 2 < width -> 30 * 2 < height ->
  let ops := canvas_ops (events (drawField viewMode width height)) in
  exists x y w h,
    strokedRects ops = [(x, y, w, h)]
    /\ 30 <= x /\ 30 <= y /\ x + w <= width - 30 /\ y + h <= height - 30
    /\ x = width - (x + w) /\ y = height - (y + h)
    /\ 0 < w /\ 0 < h
    /\ w / h = match viewMode with full => 110 / 60 | half => 60 / 65 end
    /\ Forall (opInside x y w h) ops.
Proof.
  intros Hw Hh ops. subst ops.
  unfold drawField. cbn -[drawFullField drawHalfField].
  replace (Rleb width (30 * 2)) with false by Rfalse.
  replace (Rleb height (30 * 2)) with false by Rfalse.
  set (W := width - 30 * 2). set (H := height - 30 * 2).
  assert (HW : 0 < W) by (unfold W; lra).
  assert (HH : 0 < H) by (unfold H; lra).
  assert (Hratio : W = W / H * H) by (field; lra).
  destruct viewMode; cbn -[drawFullField drawHalfField].
  - destruct (Rltb (110 / 60) (W / H)) eqn:Hc; cbn.
    + apply Rltb_lt in Hc.
      assert (110 / 60 * H < W) by (rewrite Hratio; apply Rmult_lt_compat_r; lra).
      rewrite !Rmax_right by lra.
      do 4 eexists. split; [reflexivity|].
      repeat (split; [first [lra | field; lra | unfold W, H in *; lra]|]).
      unfold W, H in *. inside_ops.
    + apply Rltb_ge in Hc.
      assert (W <= 110 / 60 * H) by (rewrite Hratio; apply Rmult_le_compat_r; lra).
      rewrite !Rmax_right by lra.
      do 4 eexists. split; [reflexivity|].
      repeat (split; [first [lra | field; lra | unfold W, H in *; lra]|]).
      unfold W, H in *. inside_ops.
  - destruct (Rltb (60 / 65) (W / H)) eqn:Hc; cbn.
    + apply Rltb_lt in Hc.
      assert (60 / 65 * H < W) by (rewrite Hratio; apply Rmult_lt_compat_r; lra).
      rewrite !Rmax_right by lra.
      do 4 eexists. split; [reflexivity|].
      repeat (split; [first [lra | field; lra | unfold W, H in *; lra]|]).
      unfold W, H in *. inside_ops.
    + apply Rltb_ge in Hc.
      assert (W <= 60 / 65 * H) by (rewrite Hratio; apply Rmult_le_compat_r; lra).
      rewrite !Rmax_right by lra.
      do 4 eexists. split; [reflexivity|].
      repeat (split; [first [lra | field; lra | unfold W, H in *; lra]|]).
      unfold W, H in *. inside_ops.
Qed.

(** ** Pointer positions *)

(** X18.  With exact arithmetic, for a canvas shown with a positive width
    and height, [getPos] maps the rectangle the canvas occupies on screen
    onto the canvas: its top left corner to (0, 0), its bottom right corner
    to the backing width and height, and a pointer inside it to a point
    inside the canvas.  When the canvas is shown at its backing size the
    position is the offset of the pointer from the top left corner.  A touch
    event is read at its first touch; with no touch the read throws.  No
    denominator is zero.  (In binary64 the scaled position of a corner can
    differ from the backing size by a rounding error.) *)
Theorem getPos_onto_canvas (canvas_width canvas_height : R) (rect : DOMRect R) :
  0 < rect_width rect -> 0 < rect_height rect ->
  0 <= canvas_width -> 0 <= canvas_height ->
  let pos := fun e => value (getPos canvas_width canvas_height rect e) in
  pos (MouseEvent (rect_left rect) (rect_top rect)) = Some {| px := 0; py := 0 |}
  /\ pos (MouseEvent (rect_left rect + rect_width rect)
                     (rect_top rect + rect_height rect))
     = Some {| px := canvas_width; py := canvas_height |}
  /\ (forall cx cy,
        rect_left rect <= cx <= rect_left rect + rect_width rect ->
        rect_top rect <= cy <= rect_top rect + rect_height rect ->
        exists p, pos (MouseEvent cx cy) = Some p
                  /\ 0 <= px p <= canvas_width /\ 0 <= py p <= canvas_height)
  /\ (rect_width rect = canvas_width -> rect_height rect = canvas_height ->
      forall cx cy,
        pos (MouseEvent cx cy)
        = Some {| px := cx - rect_left rect; py := cy - rect_top rect |})
  /\ (forall t ts, pos (TouchEvent (t :: ts)) = pos (MouseEvent (clientX t) (clientY t)))
  /\ pos (TouchEvent []) = None
  /\ forall e, Forall (fun d => d <> 0)
                      (denominators (events (getPos canvas_width canvas_height rect e))).
Proof.
  intros Hw Hh Hcw Hch pos. subst pos.
  destruct rect as [l t w h]. cbn [rect_left rect_top rect_width rect_height] in *.
  unfold getPos. cbn.
  split; [f_equal; f_equal; field; lra|].
  split; [f_equal; f_equal; field; lra|].
  split.
  { intros cx cy Hx Hy. eexists. split; [reflexivity|]. cbn.
    assert (Hsx : 0 <= canvas_width / w)
      by (apply Rmult_le_pos; [lra | left; apply Rinv_0_lt_compat; lra]).
    assert (Hsy : 0 <= canvas_height / h)
      by (apply Rmult_le_pos; [lra | left; apply Rinv_0_lt_compat; lra]).
    assert (Hcx : canvas_width = w * (canvas_width / w)) by (field; lra).
    assert (Hcy : canvas_height = h * (canvas_height / h)) by (field; lra).
    repeat split.
    - apply Rmult_le_pos; lra.
    - rewrite Hcx at 2. apply Rmult_le_compat_r; lra.
    - apply Rmult_le_pos; lra.
    - rewrite Hcy at 2. apply Rmult_le_compat_r; lra. }
  split.
  { intros <- <- cx cy. f_equal. f_equal; field; lra. }
  split; [reflexivity|]. split; [reflexivity|].
  intros [cx cy|[|t0 ts]]; cbn; repeat constructor; lra.
Qed.

(** ** After the pointer is released *)

Section Released.

Context {T : Type} {num : Number T}.

(** X19.  A second pointer-up (mouse-leave after mouse-up) changes nothing:
    the element in progress is committed once.  After a pointer-up,
    pointer-moves change nothing, with every tool, until the next
    pointer-down. *)
Theorem released_is_stable (s : State T) (x y : T) :
  handleEnd (handleEnd s) = handleEnd s
  /\ handleMove (handleEnd s) x y = Some (handleEnd s).
Proof.
  destruct s as [t vm c els d cur scc sel dl [box|]];
    destruct cur, t; split; reflexivity.
Qed.

End Released.

(** * The further properties on concrete inputs *)

Module RunMore.

Import Scenario Cases.

Lemma shape_gesture_witness :
  (tool (board line) = line \/ tool (board line) = circle)
  /\ exists k,
       runQ (fresh (board line))
            (Dispatch (PointerDown (F64.ofZ 0) (F64.ofZ 0) "n") :: Rerender
             :: moveActions schedule ++ [Dispatch PointerUp; Rerender])
       = Some k
       /\ elements (rendered k)
          = [arrow; marker;
             Line "n" (F64.ofZ 0) (F64.ofZ 0) (F64.ofZ 10) (F64.ofZ 10) "#ef4444"].
Proof.
  split; [left; reflexivity|].
  destruct (@shape_gesture _ _ (board line) (F64.ofZ 0) (F64.ofZ 0) "n" schedule
              (or_introl eq_refl)) as (_ & k & Hrun & _ & Hel & _).
  exists k. split; [exact Hrun | exact Hel].
Defined.

Lemma freehand_gesture_witness :
  tool (board freehand) = freehand
  /\ exists k,
       runQ (fresh (board freehand))
            (Dispatch (PointerDown (F64.ofZ 0) (F64.ofZ 0) "n") :: Rerender
             :: moveActions schedule ++ [Dispatch PointerUp; Rerender])
       = Some k
       /\ elements (rendered k)
          = [arrow; marker;
             Freehand "n" [{| px := F64.ofZ 0; py := F64.ofZ 0 |};
                           {| px := F64.ofZ 10; py := F64.ofZ 10 |}] "#ef4444"].
Proof.
  split; [reflexivity|].
  destruct (@freehand_gesture _ _ (board freehand) (F64.ofZ 0) (F64.ofZ 0) "n" schedule
              eq_refl) as (_ & k & Hrun & _ & Hel & _).
  exists k. split; [exact Hrun | exact Hel].
Defined.

Lemma interact_move_keeps_sequence_witness :
  tool (board interact) = interact
  /\ exists s',
       handleMove (board interact) (F64.ofZ 7) (F64.ofZ 9) = Some s'
       /\ map el_id (elements s') = ["b"; "a"]%string.
Proof.
  split; [reflexivity|].
  destruct (@interact_move_keeps_sequence _ _ (board interact) (F64.ofZ 7) (F64.ofZ 9)
              eq_refl) as (s' & Hmove & Hids & _).
  exists s'. split; [exact Hmove | exact Hids].
Defined.

Lemma selectedMarker_reachable :
  reachable (selectedMarkerState (F64.ofZ 100) (F64.ofZ 100) "a").
Proof.
  exists (selectedMarkerTrace (F64.ofZ 100) (F64.ofZ 100) "a").
  apply selectedMarkerState_reachable. reflexivity.
Defined.

Lemma reachable_wellFormed_witness :
  reachable (selectedMarkerState (F64.ofZ 100) (F64.ofZ 100) "a")
  /\ wellFormed (selectedMarkerState (F64.ofZ 100) (F64.ofZ 100) "a").
Proof.
  split; [exact selectedMarker_reachable|].
  exact (reachable_wellFormed selectedMarker_reachable).
Defined.

Lemma reachable_anchorsExclusive_witness :
  reachable (selectedMarkerState (F64.ofZ 100) (F64.ofZ 100) "a")
  /\ anchorsExclusive (selectedMarkerState (F64.ofZ 100) (F64.ofZ 100) "a").
Proof.
  split; [exact selectedMarker_reachable|].
  exact (reachable_anchorsExclusive selectedMarker_reachable).
Defined.

Lemma eraser_removes_exactly_one_witness :
  tool (board eraser) = eraser
  /\ NoDup (map el_id (elements (board eraser)))
  /\ getElementAtPosition (elements (board eraser)) (F64.ofZ 100) (F64.ofZ 100)
     = Some marker
  /\ S (List.length (elements (handleStart (board eraser) (F64.ofZ 100)
                                           (F64.ofZ 100) "n"))) = 2%nat.
Proof.
  assert (Hnd : NoDup (map el_id (elements (board eraser)))).
  { cbn. constructor; [intros [H|[]]; discriminate H|].
    constructor; [intros []|constructor]. }
  assert (Hhit : getElementAtPosition (elements (board eraser))
                   (F64.ofZ 100) (F64.ofZ 100) = Some marker) by reflexivity.
  split; [reflexivity|]. split; [exact Hnd|]. split; [exact Hhit|].
  destruct (@eraser_removes_exactly_one _ _ (board eraser) (F64.ofZ 100) (F64.ofZ 100)
              "n" marker eq_refl Hnd Hhit) as (Hlen & _).
  exact Hlen.
Defined.

Lemma selectionValid_step_witness :
  removesOnly (board interact) PointerUp = false
  /\ selectionValid (board interact)
  /\ step (board interact) PointerUp = Some (handleEnd (board interact))
  /\ selectionValid (handleEnd (board interact)).
Proof.
  assert (Hv : selectionValid (board interact)).
  { intros i [<-|[]]. exists arrow. split; [left; reflexivity | reflexivity]. }
  split; [reflexivity|]. split; [exact Hv|]. split; [reflexivity|].
  exact (@selectionValid_step _ _ (board interact) (handleEnd (board interact))
           PointerUp eq_refl Hv eq_refl).
Defined.

Local Open Scope R_scope.

Lemma isHit_drawnThrough_witness :
  drawnThrough (Line "b" 0 0 50 0 "#3b82f6") {| px := 25; py := 0 |}
  /\ isHit (Line "b" 0 0 50 0 "#3b82f6") 25 0 = true.
Proof.
  assert (Hon : drawnThrough (Line "b" 0 0 50 0 "#3b82f6") {| px := 25; py := 0 |}).
  { exists (1 / 2). cbn. repeat split; lra. }
  split; [exact Hon|].
  exact (@isHit_drawnThrough (Line "b" 0 0 50 0 "#3b82f6") {| px := 25; py := 0 |} Hon I).
Defined.

Lemma isHit_dragElement_witness :
  In (el_id (Player "a" 100 100 8 "#ef4444")) ["a"]%string
  /\ isHit (dragElement ["a"]%string 10 (-5) (Player "a" 100 100 8 "#ef4444"))
           (103 + 10) (98 + -5)
     = isHit (Player "a" 100 100 8 "#ef4444") 103 98.
Proof.
  assert (Hin : In (el_id (Player "a" 100 100 8 "#ef4444")) ["a"]%string)
    by (left; reflexivity).
  split; [exact Hin|].
  exact (@isHit_dragElement ["a"]%string 10 (-5) 103 98
           (Player "a" 100 100 8 "#ef4444") Hin).
Defined.

Lemma group_drag_two_moves_witness :
  tool dragging = interact /\ isDrawing dragging = true
  /\ selectionBox dragging = None
  /\ dragLastPos dragging = Some {| px := 100; py := 100 |}
  /\ selectedElementIds dragging <> []
  /\ exists k,
       runQ (fresh dragging)
            [Dispatch (PointerMove 110 95); Dispatch (PointerMove 100 100)]
       = Some k
       /\ elements (pending k)
          = map (dragElement (selectedElementIds dragging)
                   ((110 - 100) + (100 - 100)) ((95 - 100) + (100 - 100)))
                (elements dragging).
Proof.
  assert (Hsel : selectedElementIds dragging <> []) by discriminate.
  repeat (split; [first [reflexivity | exact Hsel]|]).
  destruct (@group_drag_two_moves dragging {| px := 100; py := 100 |} 110 95 100 100
              eq_refl eq_refl eq_refl eq_refl Hsel) as (_ & _ & Hstale).
  eexists. split; [exact Hstale | reflexivity].
Defined.


Lemma placed_marker_is_topmost_witness :
  tool (setTool player dragging) = player
  /\ getElementAtPosition
       (elements (handleStart (setTool player dragging) 25 0 "n")) 25 0
     = Some (Player "n" 25 0 8 "#ef4444").
Proof.
  split; [reflexivity|].
  exact (@placed_marker_is_topmost (setTool player dragging) 25 0 "n" eq_refl).
Defined.

Lemma drawField_layout_witness :
  30 * 2 < 1000 /\ 30 * 2 < 600
  /\ exists x y w h,
       strokedRects (canvas_ops (events (drawField half 1000 600))) = [(x, y, w, h)]
       /\ 30 <= y /\ w / h = 60 / 65.
Proof.
  assert (Hw : 30 * 2 < 1000) by lra. assert (Hh : 30 * 2 < 600) by lra.
  split; [exact Hw|]. split; [exact Hh|].
  destruct (@drawField_layout half 1000 600 Hw Hh)
    as (x & y & w & h & Hrect & _ & Hy & _ & _ & _ & _ & _ & _ & Hr & _).
  exists x, y, w, h. repeat split; assumption.
Defined.

Lemma getPos_onto_canvas_witness :
  0 < rect_width onScreen /\ 0 < rect_height onScreen /\ 0 <= 1000 /\ 0 <= 600
  /\ value (getPos 1000 600 onScreen (MouseEvent 510 320))
     = Some {| px := 1000; py := 600 |}.
Proof.
  assert (H1 : 0 < rect_width onScreen) by (cbn; lra).
  assert (H2 : 0 < rect_height onScreen) by (cbn; lra).
  assert (H3 : 0 <= 1000) by lra. assert (H4 : 0 <= 600) by lra.
  repeat (split; [assumption|]).
  destruct (@getPos_onto_canvas 1000 600 onScreen H1 H2 H3 H4) as (_ & Hbr & _).
  cbn in Hbr.
  replace 510 with (10 + 500) by lra. replace 320 with (20 + 300) by lra.
  exact Hbr.
Defined.

End RunMore.
